(** * lol-wiki-parser: the crawl-and-extract pipeline of [main.py]

    A shallow embedding of [main.py] and the properties of its listing
    crawl, detail crawl, field extraction and orchestration.

    Conventions of the model.
    - A Python [str] is a [string]; its characters are the code points
      0..255.  On these, [\d] is [0-9], case folding touches the ASCII
      letters only, and [str.strip] removes the white space listed in
      [is_space].
    - Python's [None] for an optional [str] is [None : option string].
    - An exception is a value of [Error]: those of the browser runtime
      ([TimeoutError], [PlaywrightError]) and those raised by the
      program's own expressions ([IndexError], [TypeError]).
    - What the browser answers (page loads, DOM contents) is an input of
      the model: the functions take the outcome of every browser call as
      an argument. *)

From Stdlib Require Import String Ascii List Bool Arith ZArith Lia.
From stdpp Require Import base option list strings.
Import ListNotations.
Open Scope string_scope.
Open Scope nat_scope.
Open Scope list_scope.

(** ** Characters and strings *)

Module Str.

Definition code (c : ascii) : nat := nat_of_ascii c.

Definition is_upper (c : ascii) : bool := (65 <=? code c) && (code c <=? 90).
Definition is_lower (c : ascii) : bool := (97 <=? code c) && (code c <=? 122).

Definition lower (c : ascii) : ascii :=
  if is_upper c then ascii_of_nat (code c + 32) else c.
Definition upper (c : ascii) : ascii :=
  if is_lower c then ascii_of_nat (code c - 32) else c.

(** [str.isspace] on the code points below 256. *)
Definition is_space (c : ascii) : bool :=
  let n := code c in
  ((9 <=? n) && (n <=? 13)) || ((28 <=? n) && (n <=? 32))
  || (n =? 133) || (n =? 160).

Fixpoint lstrip (s : string) : string :=
  match s with
  | String c s' => if is_space c then lstrip s' else s
  | EmptyString => EmptyString
  end.

Fixpoint rev_onto (s acc : string) : string :=
  match s with
  | String c s' => rev_onto s' (String c acc)
  | EmptyString => acc
  end.

Definition rev (s : string) : string := rev_onto s EmptyString.

Definition rstrip (s : string) : string := rev (lstrip (rev s)).

(** [s.strip()] *)
Definition strip (s : string) : string := rstrip (lstrip s).

(** [sep.join(parts)] *)
Fixpoint join (sep : string) (parts : list string) : string :=
  match parts with
  | [] => EmptyString
  | [p] => p
  | p :: rest => String.append p (String.append sep (join sep rest))
  end.

(** [s.startswith(p)] *)
Definition startswith (s p : string) : bool := String.prefix p s.

(** [needle in hay] *)
Fixpoint contains (needle hay : string) : bool :=
  String.prefix needle hay
  || match hay with
     | String _ hay' => contains needle hay'
     | EmptyString => false
     end.

(** The first [n] characters of [s]. *)
Fixpoint take (n : nat) (s : string) : string :=
  match n, s with
  | S n', String c s' => String c (take n' s')
  | _, _ => EmptyString
  end.

End Str.

(** ** Regular expressions: the fragment of [re] the patterns use

    [re.compile(p, re.IGNORECASE).match(text)] is a backtracking search
    anchored at the start of [text]: alternatives are tried left to
    right, [+], [*] and [?] are greedy, and the first way to match the
    whole pattern wins.  The text after the match is ignored. *)

Module Re.

Inductive regex : Type :=
| Eps                                   (* the empty pattern *)
| Lit (c : ascii)                       (* an ordinary character *)
| AnyChar                               (* [.] *)
| Class (ranges : list (ascii * ascii)) (* [[...]], a list of ranges *)
| Seq (r1 r2 : regex)                   (* [r1r2] *)
| Alt (r1 r2 : regex)                   (* [r1|r2] *)
| Star (r : regex)                      (* [r*] *)
| Opt (r : regex)                       (* [r?] *)
| Group (r : regex)                     (* [(r)] *)
| Named (name : string) (r : regex).    (* [(?P<name>r)] *)

(** [r+] *)
Definition Plus (r : regex) : regex := Seq r (Star r).

(** A run of ordinary characters. *)
Fixpoint lit (s : string) : regex :=
  match s with
  | EmptyString => Eps
  | String c EmptyString => Lit c
  | String c s' => Seq (Lit c) (lit s')
  end.

(** The named groups that took part in the match, latest first. *)
Definition captures : Type := list (string * string).

(** [m.group(name)]: [None] when the group took no part in the match. *)
Fixpoint group (m : captures) (name : string) : option string :=
  match m with
  | [] => None
  | (n, v) :: m' => if String.eqb n name then Some v else group m' name
  end.

Definition in_range (r : ascii * ascii) (c : ascii) : bool :=
  (Str.code (fst r) <=? Str.code c) && (Str.code c <=? Str.code (snd r)).

(** Under [re.IGNORECASE] a character is in a class when it or its
    other case is. *)
Definition in_class (ranges : list (ascii * ascii)) (c : ascii) : bool :=
  existsb (fun r => in_range r c || in_range r (Str.lower c) || in_range r (Str.upper c))
          ranges.

(** Under [re.IGNORECASE] a literal matches either case. *)
Definition lit_eqb (p c : ascii) : bool :=
  Ascii.eqb (Str.lower p) (Str.lower c).

Definition is_newline (c : ascii) : bool := Str.code c =? 10.

(** [exec r s m k]: match [r] at the start of [s] in every possible
    way, in priority order, and hand the rest of the text to [k]; the
    first success of [k] is the result.  An iteration of [r*] that
    consumes nothing ends the loop. *)
Fixpoint exec (r : regex) (s : string) (m : captures)
         (k : string -> captures -> option captures) {struct r} : option captures :=
  match r with
  | Eps => k s m
  | Lit p =>
      match s with
      | String c s' => if lit_eqb p c then k s' m else None
      | EmptyString => None
      end
  | AnyChar =>
      match s with
      | String c s' => if is_newline c then None else k s' m
      | EmptyString => None
      end
  | Class ranges =>
      match s with
      | String c s' => if in_class ranges c then k s' m else None
      | EmptyString => None
      end
  | Seq r1 r2 => exec r1 s m (fun s1 m1 => exec r2 s1 m1 k)
  | Alt r1 r2 =>
      match exec r1 s m k with
      | Some res => Some res
      | None => exec r2 s m k
      end
  | Opt r1 =>
      match exec r1 s m k with
      | Some res => Some res
      | None => k s m
      end
  | Star r1 =>
      (fix loop (fuel : nat) (s : string) (m : captures) {struct fuel} : option captures :=
         match fuel with
         | O => k s m
         | S fuel' =>
             match exec r1 s m
                     (fun s1 m1 =>
                        if String.length s1 <? String.length s
                        then loop fuel' s1 m1 else None) with
             | Some res => Some res
             | None => k s m
             end
         end) (String.length s) s m
  | Group r1 => exec r1 s m k
  | Named name r1 =>
      exec r1 s m
           (fun s1 m1 =>
              k s1 ((name, Str.take (String.length s - String.length s1) s) :: m1))
  end.

(** [pattern.match(text)] *)
Definition rmatch (r : regex) (text : string) : option captures :=
  exec r text [] (fun _ m => Some m).

End Re.

(** ** The patterns of the detail page (lines 135-161) *)

Module Patterns.
Import Re.

Declare Scope re_scope.
Delimit Scope re_scope with re.
Notation "r1 +> r2" := (Seq r1 r2) (at level 60, right associativity) : re_scope.
Open Scope re_scope.

(** [[\d.]] *)
Definition digit_or_dot : regex := Class [("0", "9"); (".", ".")]%char.
(** [[ a-zA-Z]] *)
Definition space_or_letter : regex := Class [(" ", " "); ("a", "z"); ("A", "Z")]%char.
(** [[\+\-]] *)
Definition plus_or_minus : regex := Class [("+", "+"); ("-", "-")]%char.

(** [( \(\+ (?P<name>[\d.]+)\))?] *)
Definition growth_clause (name : string) : regex :=
  Opt (Group (lit " (+ " +> Named name (Plus digit_or_dot) +> lit ")")).

Definition HEALTH_REGEX : regex :=
  lit "Health " +> Named "health_base" (Plus digit_or_dot) +> growth_clause "health_growth".

Definition RESOURCE_REGEX : regex :=
  Named "resource_name" (Plus space_or_letter) +> lit " "
  +> Named "resource_base" (Alt (lit "N/A") (Plus digit_or_dot))
  +> growth_clause "resource_growth".

Definition HEALTH_REGEN_REGEX : regex :=
  lit "Health regen" +> AnyChar +> lit " (per 5s) "
  +> Named "health_regen_base" (Plus digit_or_dot) +> growth_clause "health_regen_growth".

Definition RESOURCE_REGEN_REGEX : regex :=
  Star space_or_letter +> lit " regen" +> AnyChar +> Opt (Group (lit " (per 5s)")) +> lit " "
  +> Named "resource_regen_base" (Alt (lit "N/A") (Plus digit_or_dot))
  +> growth_clause "resource_regen_growth".

Definition ARMOR_REGEX : regex :=
  lit "Armor " +> Named "armor_base" (Plus digit_or_dot) +> growth_clause "armor_growth".

Definition ATTACK_REGEX : regex :=
  lit "Attack damage " +> Named "attack_base" (Plus digit_or_dot) +> growth_clause "attack_growth".

Definition MAGIC_RESIST_REGEX : regex :=
  lit "Magic resist" +> AnyChar +> lit " "
  +> Named "magic_resist_base" (Plus digit_or_dot) +> growth_clause "magic_resist_growth".

Definition CRIT_DAMAGE_PERCENTAGE_REGEX : regex :=
  lit "Crit" +> AnyChar +> lit " damage "
  +> Named "crit_damage_percentage" (Plus digit_or_dot) +> lit "%".

Definition MOVEMENT_SPEED_REGEX : regex :=
  lit "Move" +> AnyChar +> lit " speed " +> Named "movement_speed" (Plus digit_or_dot).

Definition ATTACK_RANGE_REGEX : regex :=
  lit "Attack range " +> Named "attack_range" (Plus digit_or_dot).

Definition ATTACK_SPEED_BASE_REGEX : regex :=
  lit "Base AS " +> Named "attack_speed_base" (Plus digit_or_dot).

Definition ATTACK_WINDUP_PERCENTAGE_REGEX : regex :=
  lit "Attack windup " +> Named "attack_windup_percentage" (Plus digit_or_dot) +> lit "%".

Definition ATTACK_SPEED_RATIO_REGEX : regex :=
  lit "AS ratio " +> Named "attack_speed_ratio" (Plus digit_or_dot).

Definition ATTACK_SPEED_BONUS_PERCENTAGE_REGEX : regex :=
  lit "Bonus AS " +> Named "attack_speed_bonus_percentage" (Plus digit_or_dot) +> lit " %".

Definition MISSILE_SPEED_REGEX : regex :=
  lit "Missile speed " +> Named "missile_speed" (Plus digit_or_dot).

Definition GAMEPLAY_RADIUS_REGEX : regex :=
  lit "Gameplay radius " +> Named "gameplay_radius" (Plus digit_or_dot).

Definition SELECTION_RADIUS_REGEX : regex :=
  lit "Selection radius " +> Named "selection_radius" (Plus digit_or_dot).

Definition PATHING_RADIUS_REGEX : regex :=
  lit "Pathing radius " +> Named "pathing_radius" (Plus digit_or_dot).

Definition ACQUISITION_RADIUS_REGEX : regex :=
  lit "Acq" +> AnyChar +> lit " radius " +> Named "acquisition_radius" (Plus digit_or_dot).

(** [(?P<name>[\+\-][\d.]+)] *)
Definition signed (name : string) : regex :=
  Named name (plus_or_minus +> Plus digit_or_dot).

Definition ARAM_DAMEGE_DEALT_BONUS_PERCENTAGE_REGEX : regex :=
  lit "Damage Dealt " +> signed "aram_damage_dealt_bonus_percentage" +> lit "%".

Definition ARAM_DAMEGE_TAKEN_BONUS_PERCENTAGE_REGEX : regex :=
  lit "Damage Received " +> signed "aram_damage_taken_bonus_percentage" +> lit "%".

Definition ARAM_ATTACK_SPEED_BONUS_PERCENTAGE_REGEX : regex :=
  lit "Total Attack Speed " +> signed "aram_attack_speed_bonus_percentage" +> lit "%".

Definition ARAM_ABILITY_HASTE_BONUS_REGEX : regex :=
  lit "Ability Haste " +> signed "aram_ability_haste_bonus".

Definition ARAM_ENERGY_REGEN_BONUS_PERCENTAGE_REGEX : regex :=
  lit "Energy Regen " +> signed "aram_energy_regen_bonus_percentage" +> lit "%".

Definition ARAM_HEALING_BONUS_PERCENTAGE_REGEX : regex :=
  lit "Healing " +> signed "aram_healing_bonus_percentage" +> lit "%".

Definition ARAM_SHIELDING_BONUS_PERCENTAGE_REGEX : regex :=
  lit "Shielding " +> signed "aram_shielding_bonus_percentage" +> lit "%".

Definition ARAM_TENACITY_BONUS_PERCENTAGE_REGEX : regex :=
  lit "Tenacity & Slow Resist " +> signed "aram_tenacity_bonus_percentage" +> lit "%".

End Patterns.

Import Patterns.

(** ** Errors, log records and the monad of the crawl functions *)

Inductive Error : Type :=
| TimeoutError (msg : string)      (* raised by the browser runtime *)
| PlaywrightError (msg : string)   (* raised by the browser runtime *)
| IndexError                       (* [xs[0]] on an empty list *)
| TypeError.                       (* [str + None] *)

Inductive LogRecord : Type :=
| Info_started (context : string) (attempt_number : nat)
| Info_failed (context : string) (attempt_number : nat) (exc : Error)
| Debug_entry (name : option string) (last_changed_patch stats_url : string)
| Debug_field (name : option string) (field_name text : string)
| Warning_unknown_field (name : option string) (field_name text : string).

(** A computation writes log records and then returns or raises. *)
Definition M (A : Type) : Type := (list LogRecord * (Error + A))%type.

Definition ret {A} (a : A) : M A := ([], inr a).
Definition raise {A} (e : Error) : M A := ([], inl e).
Definition log (r : LogRecord) : M unit := ([r], inr tt).

Definition bind {A B} (c : M A) (f : A -> M B) : M B :=
  match c with
  | (l, inl e) => (l, inl e)
  | (l, inr a) => let '(l', r) := f a in (l ++ l', r)
  end.

Notation "'do' x <- c ; k" := (bind c (fun x => k))
  (at level 10, x pattern, c at level 100, k at level 200).

Definition logs {A} (c : M A) : list LogRecord := fst c.
Definition outcome {A} (c : M A) : Error + A := snd c.

(** [for x in xs: acc = f(acc, x)] *)
Fixpoint foldM {A S} (f : S -> A -> M S) (xs : list A) (acc : S) : M S :=
  match xs with
  | [] => ret acc
  | x :: xs' => do acc' <- f acc x; foldM f xs' acc'
  end.

(** [xs[0]] *)
Definition first {A} (xs : list A) : M A :=
  match xs with
  | [] => raise IndexError
  | x :: _ => ret x
  end.

(** ** The retry loop (lines 56-69 and 175-189)

    [AsyncRetrying(stop=stop_after_attempt(n), before=.., before_sleep=..,
    reraise=True)]: the attempts run one after the other; [before] runs
    ahead of every attempt; after a failed attempt, when the stop
    condition holds the exception of that attempt is raised again as it
    is, otherwise [before_sleep] runs and the next attempt starts.
    [attempt ord] is the outcome of the body of attempt number [ord]:
    [None] when it returns, [Some e] when it raises [e]. *)

Fixpoint retry_from (retries_left attempt_number : nat) (context : string)
         (attempt : nat -> option Error) : M unit :=
  do _ <- log (Info_started context attempt_number);
  match attempt attempt_number with
  | None => ret tt
  | Some e =>
      match retries_left with
      | O => raise e
      | S retries_left' =>
          do _ <- log (Info_failed context attempt_number e);
          retry_from retries_left' (S attempt_number) context attempt
      end
  end.

Definition AsyncRetrying (stop_after_attempt : nat) : string -> (nat -> option Error) -> M unit :=
  retry_from (stop_after_attempt - 1) 1.

(** ** The listing crawl (lines 41-92) *)

Record ChampionEntry : Type := {
  name : option string;
  last_changed_patch : string;
  stats_url : string;
}.

(** A [td] of the roster table, as far as the crawl reads it. *)
Record Td : Type := {
  data_sort_value : option string;   (* [.get("data-sort-value")] *)
  text_content : string;             (* [.text_content()] *)
  anchors : list (option string);    (* [.get("href")] of each [a] below it *)
}.

(** A [tr] is the list of its [td] children. *)
Definition Tr : Type := list Td.

(** [row.xpath("./td[i]")]: the [i]-th [td] child, if there is one. *)
Definition xpath_td (row : Tr) (i : nat) : list Td :=
  match i with
  | O => []
  | S j => match row !! j with Some c => [c] | None => [] end
  end.

(** What the browser and the parser of the table answer on the roster
    page.  [listing_base_url] is [table_root.base_url]: the base URL as
    the parsed table gives it back, which need not be the string it was
    parsed with, and is [None] when the table kept none. *)
Record ListingPage : Type := {
  listing_goto : nat -> option Error;   (* [page_goto], by attempt number *)
  listing_rows : Error + list Tr;       (* the rows of the located table *)
  listing_base_url : option string;     (* [table_root.base_url] *)
}.

(** [repr(s)] of a [str]: between single quotes, or between double quotes
    when [s] has a single quote and no double quote; the backslash and
    the chosen quote are escaped, tab, line feed and carriage return are
    written with their letter, and every other character that is not
    printable as two hexadecimal digits. *)
Module Repr.

Definition single_quote : ascii := ascii_of_nat 39.
Definition double_quote : ascii := ascii_of_nat 34.
Definition backslash : ascii := ascii_of_nat 92.

Fixpoint has_char (c : ascii) (s : string) : bool :=
  match s with
  | EmptyString => false
  | String x s' => Ascii.eqb x c || has_char c s'
  end.

(** [c.isprintable()] on the code points below 256. *)
Definition is_printable (c : ascii) : bool :=
  let n := Str.code c in
  ((32 <=? n) && (n <=? 126)) || ((161 <=? n) && negb (n =? 173)).

Definition hex_digit (n : nat) : ascii :=
  if n <? 10 then ascii_of_nat (48 + n) else ascii_of_nat (87 + n).

Definition escape (quote c : ascii) : string :=
  let n := Str.code c in
  if Ascii.eqb c quote || Ascii.eqb c backslash then String backslash (String c EmptyString)
  else if n =? 9 then String backslash "t"
  else if n =? 10 then String backslash "n"
  else if n =? 13 then String backslash "r"
  else if is_printable c then String c EmptyString
  else String backslash
              (String "x" (String (hex_digit (n / 16)) (String (hex_digit (n mod 16)) EmptyString))).

Fixpoint escape_all (quote : ascii) (s : string) : string :=
  match s with
  | EmptyString => EmptyString
  | String c s' => String.append (escape quote c) (escape_all quote s')
  end.

Definition repr (s : string) : string :=
  let quote :=
    if has_char single_quote s && negb (has_char double_quote s)
    then double_quote else single_quote in
  String quote (String.append (escape_all quote s) (String quote EmptyString)).

End Repr.

(** Lines 55 and 173: the text made of the name of [page_goto] and of
    [url=] followed by [repr(url)]. *)
Definition goto_context (url : string) : string :=
  String.append "page_goto url=" (Repr.repr url).

(** Lines 78-90: the body of the loop over the rows.  In line 81 the
    link is looked up before the two operands of [+] are added, and [+]
    raises [TypeError] when either of them is [None]. *)
Definition parse_row (base_url : option string) (row : Tr) : M ChampionEntry :=
  do td1 <- first (xpath_td row 1);
  let name := data_sort_value td1 in
  do td4 <- first (xpath_td row 4);
  let last_changed_patch := Str.strip (text_content td4) in
  do a <- first (anchors td1);
  do stats_url <- match base_url, a with
                  | Some base, Some href => ret (String.append base href)
                  | _, _ => raise TypeError
                  end;
  do _ <- log (Debug_entry name last_changed_patch stats_url);
  ret {| name := name; last_changed_patch := last_changed_patch; stats_url := stats_url |}.

Definition parse_rows (base_url : option string) (rows : list Tr) : M (list ChampionEntry) :=
  foldM (fun champion_entrys row =>
           do entry <- parse_row base_url row;
           ret (champion_entrys ++ [entry]))
        rows [].

Definition parse_champion_entrys (page : ListingPage) (lol_wiki_base_url : string)
  : M (list ChampionEntry) :=
  let url := String.append lol_wiki_base_url "/wiki/List_of_champions" in
  do _ <- AsyncRetrying 3 (goto_context url) (listing_goto page);
  do rows <- match listing_rows page with
             | inl e => raise e
             | inr rows => ret rows
             end;
  parse_rows (listing_base_url page) rows.

(** ** The record of a champion (lines 95-132)

    [ChampionStats] is a slotted dataclass: [name] and thirty-five
    optional strings, all [None] when the record is created. *)

Inductive Slot : Type :=
  | health_base | health_growth | resource_name | resource_base
  | resource_growth | health_regen_base | health_regen_growth
  | resource_regen_base | resource_regen_growth | armor_base | armor_growth
  | attack_base | attack_growth | magic_resist_base | magic_resist_growth
  | crit_damage_percentage | movement_speed | attack_range
  | attack_speed_base | attack_windup_percentage | attack_speed_ratio
  | attack_speed_bonus_percentage | missile_speed | gameplay_radius
  | selection_radius | pathing_radius | acquisition_radius
  | aram_damage_dealt_bonus_percentage | aram_damage_taken_bonus_percentage
  | aram_attack_speed_bonus_percentage | aram_ability_haste_bonus
  | aram_energy_regen_bonus_percentage | aram_healing_bonus_percentage
  | aram_shielding_bonus_percentage | aram_tenacity_bonus_percentage.

#[global] Instance Slot_eq_dec : EqDecision Slot.
Proof. solve_decision. Defined.

Record ChampionStats : Type := {
  stats_name : option string;        (* the attribute [name] *)
  attr : Slot -> option string;      (* the other attributes *)
}.

(** [ChampionStats(name=n)] *)
Definition new_ChampionStats (n : option string) : ChampionStats :=
  {| stats_name := n; attr := fun _ => None |}.

(** [champion_stats.slot = v] *)
Definition setattr (cs : ChampionStats) (slot : Slot) (v : option string) : ChampionStats :=
  {| stats_name := stats_name cs;
     attr := fun s => if decide (s = slot) then v else attr cs s |}.

(** ** The extraction loop (lines 194-311) *)

(** The arms of the [match field_name] statement that apply a pattern. *)
Inductive Field : Type :=
  | Health | Resource | HealthRegen | ResourceRegen | Armor | AttackDamage
  | Mr | CriticalDamage | Ms | Range | AttackSpeed | Windup | AsRatio
  | BonusAs | MissileSpeed | GameplayRadius | SelectionRadius | PathingRadius
  | AcquisitionRadius | AramDmgDealt | AramDmgTaken | AramAttackSpeed
  | AramAbilityHaste | AramEnergyRegen | AramHealing | AramShielding
  | AramTenacity.

#[global] Instance Field_eq_dec : EqDecision Field.
Proof. solve_decision. Defined.

Inductive Arm : Type :=
| Rule (f : Field)   (* one of the arms with a pattern *)
| Ignored            (* the arm of the ignored prefixes: [pass] *)
| Unknown.           (* the last arm: a warning *)

(** Lines 296-305. *)
Definition ignored_prefixes : list string :=
  ["nb-"; "nb_"; "ofa-"; "ofa_"; "urf-"; "usb-"; "usb_"; "ar_"].

(** Which arm of [match field_name] runs: the arms are tried from top to
    bottom, a literal arm by [==], the guarded arms by their guard. *)
Definition select_arm (field_name : string) : Arm :=
  if String.eqb field_name "health" then Rule Health
  else if String.eqb field_name "resource" then Rule Resource
  else if String.eqb field_name "health regen" then Rule HealthRegen
  else if String.eqb field_name "resource regen" then Rule ResourceRegen
  else if String.eqb field_name "armor" then Rule Armor
  else if String.eqb field_name "attack damage" then Rule AttackDamage
  else if String.eqb field_name "mr" then Rule Mr
  else if String.eqb field_name "critical damage" then Rule CriticalDamage
  else if String.eqb field_name "ms" then Rule Ms
  else if String.eqb field_name "range" then Rule Range
  else if String.eqb field_name "attack speed" then Rule AttackSpeed
  else if String.eqb field_name "windup" then Rule Windup
  else if String.eqb field_name "as ratio" then Rule AsRatio
  else if String.eqb field_name "bonus as" then Rule BonusAs
  else if String.eqb field_name "missile speed" then Rule MissileSpeed
  else if String.eqb field_name "gameplay radius" then Rule GameplayRadius
  else if String.eqb field_name "selection radius" then Rule SelectionRadius
  else if Str.contains "pathing radius" field_name then Rule PathingRadius
  else if String.eqb field_name "acquisition radius" then Rule AcquisitionRadius
  else if String.eqb field_name "aram-dmg-dealt" then Rule AramDmgDealt
  else if String.eqb field_name "aram-dmg-taken" then Rule AramDmgTaken
  else if String.eqb field_name "aram_attack_speed" then Rule AramAttackSpeed
  else if String.eqb field_name "aram_ability_haste" then Rule AramAbilityHaste
  else if String.eqb field_name "aram_energy_regen" then Rule AramEnergyRegen
  else if String.eqb field_name "aram-healing" then Rule AramHealing
  else if String.eqb field_name "aram-shielding" then Rule AramShielding
  else if String.eqb field_name "aram_tenacity" then Rule AramTenacity
  else if existsb (Str.startswith field_name) ignored_prefixes then Ignored
  else Unknown.

(** The pattern an arm matches the text with. *)
Definition regex_of (f : Field) : Re.regex :=
  match f with
  | Health => HEALTH_REGEX
  | Resource => RESOURCE_REGEX
  | HealthRegen => HEALTH_REGEN_REGEX
  | ResourceRegen => RESOURCE_REGEN_REGEX
  | Armor => ARMOR_REGEX
  | AttackDamage => ATTACK_REGEX
  | Mr => MAGIC_RESIST_REGEX
  | CriticalDamage => CRIT_DAMAGE_PERCENTAGE_REGEX
  | Ms => MOVEMENT_SPEED_REGEX
  | Range => ATTACK_RANGE_REGEX
  | AttackSpeed => ATTACK_SPEED_BASE_REGEX
  | Windup => ATTACK_WINDUP_PERCENTAGE_REGEX
  | AsRatio => ATTACK_SPEED_RATIO_REGEX
  | BonusAs => ATTACK_SPEED_BONUS_PERCENTAGE_REGEX
  | MissileSpeed => MISSILE_SPEED_REGEX
  | GameplayRadius => GAMEPLAY_RADIUS_REGEX
  | SelectionRadius => SELECTION_RADIUS_REGEX
  | PathingRadius => PATHING_RADIUS_REGEX
  | AcquisitionRadius => ACQUISITION_RADIUS_REGEX
  | AramDmgDealt => ARAM_DAMEGE_DEALT_BONUS_PERCENTAGE_REGEX
  | AramDmgTaken => ARAM_DAMEGE_TAKEN_BONUS_PERCENTAGE_REGEX
  | AramAttackSpeed => ARAM_ATTACK_SPEED_BONUS_PERCENTAGE_REGEX
  | AramAbilityHaste => ARAM_ABILITY_HASTE_BONUS_REGEX
  | AramEnergyRegen => ARAM_ENERGY_REGEN_BONUS_PERCENTAGE_REGEX
  | AramHealing => ARAM_HEALING_BONUS_PERCENTAGE_REGEX
  | AramShielding => ARAM_SHIELDING_BONUS_PERCENTAGE_REGEX
  | AramTenacity => ARAM_TENACITY_BONUS_PERCENTAGE_REGEX
  end.

(** What an arm does with a match [m]. *)
Definition assign (f : Field) (m : Re.captures) (cs : ChampionStats) : ChampionStats :=
  match f with
  | Health =>
      let cs := setattr cs health_base (Re.group m "health_base") in
      setattr cs health_growth (Re.group m "health_growth")
  | Resource =>
      let resource_name' := Re.group m "resource_name" in
      if bool_decide (resource_name' <> Some "Resource") then
        let cs := setattr cs resource_name resource_name' in
        let cs := setattr cs resource_base (Re.group m "resource_base") in
        setattr cs resource_growth (Re.group m "resource_growth")
      else cs
  | HealthRegen =>
      let cs := setattr cs health_regen_base (Re.group m "health_regen_base") in
      setattr cs health_regen_growth (Re.group m "health_regen_growth")
  | ResourceRegen =>
      let resource_regen_base' := Re.group m "resource_regen_base" in
      if bool_decide (resource_regen_base' <> Some "N/A") then
        let cs := setattr cs resource_regen_base resource_regen_base' in
        setattr cs resource_regen_growth (Re.group m "resource_regen_growth")
      else cs
  | Armor =>
      let cs := setattr cs armor_base (Re.group m "armor_base") in
      setattr cs armor_growth (Re.group m "armor_growth")
  | AttackDamage =>
      let cs := setattr cs attack_base (Re.group m "attack_base") in
      setattr cs attack_growth (Re.group m "attack_growth")
  | Mr =>
      let cs := setattr cs magic_resist_base (Re.group m "magic_resist_base") in
      setattr cs magic_resist_growth (Re.group m "magic_resist_growth")
  | CriticalDamage => setattr cs crit_damage_percentage (Re.group m "crit_damage_percentage")
  | Ms => setattr cs movement_speed (Re.group m "movement_speed")
  | Range => setattr cs attack_range (Re.group m "attack_range")
  | AttackSpeed => setattr cs attack_speed_base (Re.group m "attack_speed_base")
  | Windup => setattr cs attack_windup_percentage (Re.group m "attack_windup_percentage")
  | AsRatio => setattr cs attack_speed_ratio (Re.group m "attack_speed_ratio")
  | BonusAs => setattr cs attack_speed_bonus_percentage (Re.group m "attack_speed_bonus_percentage")
  | MissileSpeed => setattr cs missile_speed (Re.group m "missile_speed")
  | GameplayRadius => setattr cs gameplay_radius (Re.group m "gameplay_radius")
  | SelectionRadius => setattr cs selection_radius (Re.group m "selection_radius")
  | PathingRadius => setattr cs pathing_radius (Re.group m "pathing_radius")
  | AcquisitionRadius => setattr cs acquisition_radius (Re.group m "acquisition_radius")
  | AramDmgDealt => setattr cs aram_damage_dealt_bonus_percentage (Re.group m "aram_damage_dealt_bonus_percentage")
  | AramDmgTaken => setattr cs aram_damage_taken_bonus_percentage (Re.group m "aram_damage_taken_bonus_percentage")
  | AramAttackSpeed => setattr cs aram_attack_speed_bonus_percentage (Re.group m "aram_attack_speed_bonus_percentage")
  | AramAbilityHaste => setattr cs aram_ability_haste_bonus (Re.group m "aram_ability_haste_bonus")
  | AramEnergyRegen => setattr cs aram_energy_regen_bonus_percentage (Re.group m "aram_energy_regen_bonus_percentage")
  | AramHealing => setattr cs aram_healing_bonus_percentage (Re.group m "aram_healing_bonus_percentage")
  | AramShielding => setattr cs aram_shielding_bonus_percentage (Re.group m "aram_shielding_bonus_percentage")
  | AramTenacity => setattr cs aram_tenacity_bonus_percentage (Re.group m "aram_tenacity_bonus_percentage")
  end.

(** A [div] with a [data-source] attribute in the detail panel. *)
Record Element : Type := {
  data_source : string;      (* [str(el.get("data-source"))] *)
  itertext : list string;    (* [el.itertext()] *)
}.

(** Line 197: the stripped pieces of text that are not empty, joined by
    one space. *)
Definition flattened_text (el : Element) : string :=
  Str.join " " (filter (fun s => s <> EmptyString) (map Str.strip (itertext el))).

(** Lines 198-309: what the loop does with one label and its text. *)
Definition observe (cs : ChampionStats) (field_name text : string) : M ChampionStats :=
  do _ <- log (Debug_field (stats_name cs) field_name text);
  if String.eqb text EmptyString then ret cs
  else
    match select_arm field_name with
    | Rule f =>
        match Re.rmatch (regex_of f) text with
        | Some m => ret (assign f m cs)
        | None => ret cs
        end
    | Ignored => ret cs
    | Unknown =>
        do _ <- log (Warning_unknown_field (stats_name cs) field_name text);
        ret cs
    end.

(** Lines 195-309: the body of the loop over the elements. *)
Definition visit (cs : ChampionStats) (el : Element) : M ChampionStats :=
  observe cs (data_source el) (flattened_text el).

(** Lines 194-311: the record built from the elements of a panel. *)
Definition extract (n : option string) (details : list Element) : M ChampionStats :=
  foldM visit details (new_ChampionStats n).

(** The record after one label and its text, and after a whole panel. *)
Definition observed (cs : ChampionStats) (field_name text : string) : ChampionStats :=
  if String.eqb text EmptyString then cs
  else
    match select_arm field_name with
    | Rule f =>
        match Re.rmatch (regex_of f) text with
        | Some m => assign f m cs
        | None => cs
        end
    | _ => cs
    end.

Definition visited (cs : ChampionStats) (el : Element) : ChampionStats :=
  observed cs (data_source el) (flattened_text el).

(** ** The rule table read off the arms

    For each arm: the literal (or, for the pathing radius, the text of the
    guard) that selects it, the attributes it assigns, and the test that
    makes it leave the record alone.  The lemmas of the next part check
    these tables against [select_arm] and [assign]. *)

Definition label_of (f : Field) : string :=
  match f with
  | Health => "health"
  | Resource => "resource"
  | HealthRegen => "health regen"
  | ResourceRegen => "resource regen"
  | Armor => "armor"
  | AttackDamage => "attack damage"
  | Mr => "mr"
  | CriticalDamage => "critical damage"
  | Ms => "ms"
  | Range => "range"
  | AttackSpeed => "attack speed"
  | Windup => "windup"
  | AsRatio => "as ratio"
  | BonusAs => "bonus as"
  | MissileSpeed => "missile speed"
  | GameplayRadius => "gameplay radius"
  | SelectionRadius => "selection radius"
  | PathingRadius => "pathing radius"
  | AcquisitionRadius => "acquisition radius"
  | AramDmgDealt => "aram-dmg-dealt"
  | AramDmgTaken => "aram-dmg-taken"
  | AramAttackSpeed => "aram_attack_speed"
  | AramAbilityHaste => "aram_ability_haste"
  | AramEnergyRegen => "aram_energy_regen"
  | AramHealing => "aram-healing"
  | AramShielding => "aram-shielding"
  | AramTenacity => "aram_tenacity"
  end.

Definition slots_of (f : Field) : list Slot :=
  match f with
  | Health => [health_base; health_growth]
  | Resource => [resource_name; resource_base; resource_growth]
  | HealthRegen => [health_regen_base; health_regen_growth]
  | ResourceRegen => [resource_regen_base; resource_regen_growth]
  | Armor => [armor_base; armor_growth]
  | AttackDamage => [attack_base; attack_growth]
  | Mr => [magic_resist_base; magic_resist_growth]
  | CriticalDamage => [crit_damage_percentage]
  | Ms => [movement_speed]
  | Range => [attack_range]
  | AttackSpeed => [attack_speed_base]
  | Windup => [attack_windup_percentage]
  | AsRatio => [attack_speed_ratio]
  | BonusAs => [attack_speed_bonus_percentage]
  | MissileSpeed => [missile_speed]
  | GameplayRadius => [gameplay_radius]
  | SelectionRadius => [selection_radius]
  | PathingRadius => [pathing_radius]
  | AcquisitionRadius => [acquisition_radius]
  | AramDmgDealt => [aram_damage_dealt_bonus_percentage]
  | AramDmgTaken => [aram_damage_taken_bonus_percentage]
  | AramAttackSpeed => [aram_attack_speed_bonus_percentage]
  | AramAbilityHaste => [aram_ability_haste_bonus]
  | AramEnergyRegen => [aram_energy_regen_bonus_percentage]
  | AramHealing => [aram_healing_bonus_percentage]
  | AramShielding => [aram_shielding_bonus_percentage]
  | AramTenacity => [aram_tenacity_bonus_percentage]
  end.

(** The name of an attribute, which is the name of the group it is read
    from. *)
Definition slot_name (s : Slot) : string :=
  match s with
  | health_base => "health_base"
  | health_growth => "health_growth"
  | resource_name => "resource_name"
  | resource_base => "resource_base"
  | resource_growth => "resource_growth"
  | health_regen_base => "health_regen_base"
  | health_regen_growth => "health_regen_growth"
  | resource_regen_base => "resource_regen_base"
  | resource_regen_growth => "resource_regen_growth"
  | armor_base => "armor_base"
  | armor_growth => "armor_growth"
  | attack_base => "attack_base"
  | attack_growth => "attack_growth"
  | magic_resist_base => "magic_resist_base"
  | magic_resist_growth => "magic_resist_growth"
  | crit_damage_percentage => "crit_damage_percentage"
  | movement_speed => "movement_speed"
  | attack_range => "attack_range"
  | attack_speed_base => "attack_speed_base"
  | attack_windup_percentage => "attack_windup_percentage"
  | attack_speed_ratio => "attack_speed_ratio"
  | attack_speed_bonus_percentage => "attack_speed_bonus_percentage"
  | missile_speed => "missile_speed"
  | gameplay_radius => "gameplay_radius"
  | selection_radius => "selection_radius"
  | pathing_radius => "pathing_radius"
  | acquisition_radius => "acquisition_radius"
  | aram_damage_dealt_bonus_percentage => "aram_damage_dealt_bonus_percentage"
  | aram_damage_taken_bonus_percentage => "aram_damage_taken_bonus_percentage"
  | aram_attack_speed_bonus_percentage => "aram_attack_speed_bonus_percentage"
  | aram_ability_haste_bonus => "aram_ability_haste_bonus"
  | aram_energy_regen_bonus_percentage => "aram_energy_regen_bonus_percentage"
  | aram_healing_bonus_percentage => "aram_healing_bonus_percentage"
  | aram_shielding_bonus_percentage => "aram_shielding_bonus_percentage"
  | aram_tenacity_bonus_percentage => "aram_tenacity_bonus_percentage"
  end.

(** Lines 209 and 219: the placeholders. *)
Definition skips (f : Field) (m : Re.captures) : bool :=
  match f with
  | Resource => bool_decide (Re.group m "resource_name" = Some "Resource")
  | ResourceRegen => bool_decide (Re.group m "resource_regen_base" = Some "N/A")
  | _ => false
  end.

(** An element qualifies for arm [f] with match [m] when the loop would
    assign the attributes of [f] from [m]. *)
Definition qualifies (f : Field) (el : Element) (m : Re.captures) : Prop :=
  flattened_text el <> EmptyString
  /\ select_arm (data_source el) = Rule f
  /\ Re.rmatch (regex_of f) (flattened_text el) = Some m
  /\ skips f m = false.

(** An element with just one piece of text. *)
Definition observation (field_name text : string) : Element :=
  {| data_source := field_name; itertext := [text] |}.

(** ** The detail crawl (lines 164-311) *)

(** What the browser answers on the page of one champion. *)
Record StatsPage : Type := {
  stats_goto : nat -> option Error;            (* [page_goto], by attempt number *)
  stats_select_option : nat -> option Error;   (* [select_option(value="-1")], by attempt number *)
  stats_details : Error + list Element;        (* the elements of the located panel *)
}.

(** Lines 181-189: the body of one attempt. *)
Definition stats_attempt (page : StatsPage) (attempt_number : nat) : option Error :=
  match stats_goto page attempt_number with
  | Some e => Some e
  | None => stats_select_option page attempt_number
  end.

(** The function without its semaphore, which [Gate] below models. *)
Definition parse_champion_stats (champion_listing_result : ChampionEntry) (page : StatsPage)
  : M ChampionStats :=
  let url := stats_url champion_listing_result in
  do _ <- AsyncRetrying 3 (goto_context url) (stats_attempt page);
  do details <- match stats_details page with
                | inl e => raise e
                | inr details => ret details
                end;
  extract (name champion_listing_result) details.

(** ** The orchestration (lines 314-360) *)

(** [xs[:stop]] *)
Definition slice_to {A} (xs : list A) (stop : option Z) : list A :=
  match stop with
  | None => xs
  | Some n =>
      if (0 <=? n)%Z then take (Z.to_nat n) xs
      else take (length xs - Z.to_nat (- n)) xs
  end.

(** [asyncio.gather] over the list of tasks: the result of every task is stored at the
    position of the task; the first task to raise makes [gather] raise.
    [completion] lists the positions of the tasks in the order in which
    they finish. *)
Fixpoint gather_run {A} (tasks : list (Error + A)) (completion : list nat)
         (results : list (option A)) : Error + list (option A) :=
  match completion with
  | [] => inr results
  | i :: completion' =>
      match tasks !! i with
      | Some (inl e) => inl e
      | Some (inr a) => gather_run tasks completion' (<[i := Some a]> results)
      | None => gather_run tasks completion' results
      end
  end.

(** The list of all results, once every position is filled. *)
Fixpoint collect {A} (results : list (option A)) : option (list A) :=
  match results with
  | [] => Some []
  | Some a :: results' =>
      match collect results' with
      | Some l => Some (a :: l)
      | None => None
      end
  | None :: _ => None
  end.

(** [None]: some task has not finished, [gather] is still waiting. *)
Definition gather {A} (tasks : list (Error + A)) (completion : list nat)
  : option (Error + list A) :=
  match gather_run tasks completion (replicate (length tasks) None) with
  | inl e => Some (inl e)
  | inr results =>
      match collect results with
      | Some l => Some (inr l)
      | None => None
      end
  end.

Record ENV : Type := {
  LOL_WIKI_BASE_URL : string;
  CHAMPION_DETAILS_MAX_NUM_CONCURRENT_PARSERS : nat;
  MAX_NUM_CHAMPIONS : option Z;
}.

(** What the browser answers during one run, and the order in which the
    detail crawls finish. *)
Record Run : Type := {
  listing_page : ListingPage;
  stats_pages : nat -> StatsPage;   (* the page of the [i]-th detail crawl *)
  completion : list nat;
}.

(** Lines 331-346: the tasks handed to [gather]. *)
Definition detail_tasks (env : ENV) (run : Run) (champion_listing_results : list ChampionEntry)
  : list (Error + ChampionStats) :=
  imap (fun i r => outcome (parse_champion_stats r (stats_pages run i)))
       (slice_to champion_listing_results (MAX_NUM_CHAMPIONS env)).

(** Lines 329-355: the list handed to [minio_put_object_in_json], or the
    exception that ends the run. *)
Definition main (env : ENV) (run : Run)
  : option (Error + list (ChampionEntry * ChampionStats)) :=
  match outcome (parse_champion_entrys (listing_page run) (LOL_WIKI_BASE_URL env)) with
  | inl e => Some (inl e)
  | inr champion_listing_results =>
      match gather (detail_tasks env run champion_listing_results) (completion run) with
      | None => None
      | Some (inl e) => Some (inl e)
      | Some (inr champion_detailss) =>
          Some (inr (zip champion_listing_results champion_detailss))
      end
  end.

(** ** The semaphore around the detail crawls (lines 170 and 329)

    [sem = asyncio.Semaphore(n)] is shared by the detail crawls, and each
    crawl runs its browser work inside [async with sem]: the block is
    entered when [sem.acquire()] returns, which takes one permit and
    needs one to be free, and it is left through [sem.release()], both
    when the block ends and when an exception leaves it.  The event loop
    interleaves the crawls; an [Event] is the next thing it runs. *)

Module Gate.

Inductive Phase : Type :=
| Waiting                        (* [sem.acquire()] has not returned *)
| InFlight                       (* inside [async with sem] *)
| Left (raised : option Error).  (* after the block; [Some e]: [e] left it *)

Inductive Event : Type :=
| Acquire (i : nat)                       (* crawl [i] enters the block *)
| Network (i : nat)                       (* crawl [i] calls the browser *)
| Release (i : nat) (raised : option Error). (* crawl [i] leaves the block *)

Record State : Type := {
  value : nat;            (* the free permits of the semaphore *)
  phases : list Phase;    (* the phase of every crawl *)
}.

(** [asyncio.Semaphore(n)] and one crawl per entry, none started. *)
Definition init (n crawls : nat) : State :=
  {| value := n; phases := replicate crawls Waiting |}.

Definition is_in_flight (p : Phase) : bool :=
  match p with InFlight => true | _ => false end.

(** What a crawl in phase [p] adds to the number of crawls in the block. *)
Definition weight (p : Phase) : nat := if is_in_flight p then 1 else 0.

(** The number of crawls inside the block. *)
Definition in_flight (st : State) : nat :=
  length (List.filter is_in_flight (phases st)).

(** One step of the event loop; [None] when the program cannot take
    that step in that state. *)
Definition step (st : State) (ev : Event) : option State :=
  match ev with
  | Acquire i =>
      match phases st !! i, value st with
      | Some Waiting, S v => Some {| value := v; phases := <[i := InFlight]> (phases st) |}
      | _, _ => None
      end
  | Network i =>
      match phases st !! i with
      | Some InFlight => Some st
      | _ => None
      end
  | Release i raised =>
      match phases st !! i with
      | Some InFlight =>
          Some {| value := S (value st); phases := <[i := Left raised]> (phases st) |}
      | _ => None
      end
  end.

Fixpoint steps (st : State) (evs : list Event) : option State :=
  match evs with
  | [] => Some st
  | ev :: evs' =>
      match step st ev with
      | Some st' => steps st' evs'
      | None => None
      end
  end.

End Gate.

(** ** Example pages *)

(** A roster page that times out, fails to load, and times out again. *)
Definition unreachable_listing : ListingPage :=
  {| listing_goto := fun k =>
       match k with
       | 1 => Some (TimeoutError "first")
       | 2 => Some (PlaywrightError "second")
       | _ => Some (TimeoutError "third")
       end;
     listing_rows := inr [];
     listing_base_url := Some "https://wiki" |}.

(** A row of the roster: the name, the decorated text and the link in the
    first cell, two cells that are not read, the patch in the fourth. *)
Definition roster_row (sort_value text href patch : string) : Tr :=
  [ {| data_sort_value := Some sort_value; text_content := text; anchors := [Some href] |};
    {| data_sort_value := None; text_content := "Fighter"; anchors := [] |};
    {| data_sort_value := None; text_content := "2013"; anchors := [] |};
    {| data_sort_value := None; text_content := patch; anchors := [] |} ].

Definition roster_page : ListingPage :=
  {| listing_goto := fun _ => None;
     listing_rows :=
       inr [roster_row "A" "A the First" "/wiki/A/LoL" " V14.1 ";
            roster_row "B" "B the Second" "/wiki/B/LoL" " V14.2 ";
            roster_row "C" "C the Third" "/wiki/C/LoL" " V14.3 "];
     listing_base_url := Some "https://wiki" |}.

(** The same roster with a second row that has lost its fourth cell. *)
Definition broken_roster_page : ListingPage :=
  {| listing_goto := fun _ => None;
     listing_rows :=
       inr [roster_row "A" "A the First" "/wiki/A/LoL" " V14.1 ";
            take 3 (roster_row "B" "B the Second" "/wiki/B/LoL" " V14.2 ");
            roster_row "C" "C the Third" "/wiki/C/LoL" " V14.3 "];
     listing_base_url := Some "https://wiki" |}.

Definition roster_entries : list ChampionEntry :=
  [ {| name := Some "A"; last_changed_patch := "V14.1"; stats_url := "https://wiki/wiki/A/LoL" |};
    {| name := Some "B"; last_changed_patch := "V14.2"; stats_url := "https://wiki/wiki/B/LoL" |};
    {| name := Some "C"; last_changed_patch := "V14.3"; stats_url := "https://wiki/wiki/C/LoL" |} ].

(** The detail page of the [i]-th champion; the first one loads at the
    second attempt. *)
Definition roster_stats_page (i : nat) : StatsPage :=
  {| stats_goto := fun k =>
       match i, k with
       | 0, 1 => Some (TimeoutError "slow")
       | _, _ => None
       end;
     stats_select_option := fun _ => None;
     stats_details :=
       inr [observation "health"
                        match i with
                        | 0 => "Health 600 (+ 90)"
                        | 1 => "Health 610 (+ 95)"
                        | _ => "Health 620"
                        end] |}.

Definition roster_env : ENV :=
  {| LOL_WIKI_BASE_URL := "https://wiki";
     CHAMPION_DETAILS_MAX_NUM_CONCURRENT_PARSERS := 3;
     MAX_NUM_CHAMPIONS := None |}.

(** A run in which the crawl of C finishes first, then A, then B. *)
Definition roster_run : Run :=
  {| listing_page := roster_page;
     stats_pages := roster_stats_page;
     completion := [2; 0; 1] |}.

(** ** Predicates on strings and further example pages *)

(** Every character of [s] satisfies [p]. *)
Fixpoint all_chars (p : ascii -> bool) (s : string) : bool :=
  match s with
  | EmptyString => true
  | String c s' => p c && all_chars p s'
  end.

(** [v] is a piece of [text]. *)
Definition infix (v text : string) : Prop :=
  exists before after, text = String.append before (String.append v after).

(** A record written by the hooks of the retry loop. *)
Definition is_attempt_record (r : LogRecord) : bool :=
  match r with
  | Info_started _ _ | Info_failed _ _ _ => true
  | _ => false
  end.

(** A row has the cells the listing crawl reads: a first cell, a fourth
    cell and a link in the first cell. *)
Definition has_required_cells (row : Tr) : bool :=
  match xpath_td row 1, xpath_td row 4 with
  | td1 :: _, _ :: _ => match anchors td1 with [] => false | _ :: _ => true end
  | _, _ => false
  end.

(** The label of the element selects an arm with a pattern. *)
Definition has_rule (el : Element) : bool :=
  match select_arm (data_source el) with
  | Rule _ => true
  | _ => false
  end.

(** The roster with a third row whose link has no address. *)
Definition unlinked_roster_page : ListingPage :=
  {| listing_goto := fun _ => None;
     listing_rows :=
       inr [roster_row "A" "A the First" "/wiki/A/LoL" " V14.1 ";
            roster_row "B" "B the Second" "/wiki/B/LoL" " V14.2 ";
            [ {| data_sort_value := Some "C"; text_content := "C the Third";
                 anchors := [None] |};
              {| data_sort_value := None; text_content := "Mage"; anchors := [] |};
              {| data_sort_value := None; text_content := "2014"; anchors := [] |};
              {| data_sort_value := None; text_content := " V14.3 "; anchors := [] |} ]];
     listing_base_url := Some "https://wiki" |}.

(** The roster read from a table that gives back no base URL. *)
Definition unbased_roster_page : ListingPage :=
  {| listing_goto := fun _ => None;
     listing_rows := listing_rows roster_page;
     listing_base_url := None |}.

(** The crawl an event of the semaphore belongs to. *)
Definition crawl_of (ev : Gate.Event) : nat :=
  match ev with
  | Gate.Acquire i | Gate.Network i | Gate.Release i _ => i
  end.

(** The roster again, but the page of B never loads. *)
Definition failing_stats_page (i : nat) : StatsPage :=
  match i with
  | 1 => {| stats_goto := fun _ => Some (TimeoutError "B is down");
            stats_select_option := fun _ => None;
            stats_details := inr [] |}
  | _ => roster_stats_page i
  end.

(** A run in which the crawl of C returns first and then B raises. *)
Definition failing_run : Run :=
  {| listing_page := roster_page;
     stats_pages := failing_stats_page;
     completion := [2; 1; 0] |}.

(** ** What a pattern matches

    The strings a pattern matches, without the search order of [Re.exec]:
    the usual reading of a regular expression, with [re.IGNORECASE]. *)

Inductive matches : Re.regex -> string -> Prop :=
| matches_Eps : matches Re.Eps EmptyString
| matches_Lit p c :
    Re.lit_eqb p c = true -> matches (Re.Lit p) (String c EmptyString)
| matches_AnyChar c :
    Re.is_newline c = false -> matches Re.AnyChar (String c EmptyString)
| matches_Class ranges c :
    Re.in_class ranges c = true -> matches (Re.Class ranges) (String c EmptyString)
| matches_Seq r1 r2 s1 s2 :
    matches r1 s1 -> matches r2 s2 -> matches (Re.Seq r1 r2) (String.append s1 s2)
| matches_Alt_l r1 r2 s : matches r1 s -> matches (Re.Alt r1 r2) s
| matches_Alt_r r1 r2 s : matches r2 s -> matches (Re.Alt r1 r2) s
| matches_Star_nil r : matches (Re.Star r) EmptyString
| matches_Star_cons r s1 s2 :
    matches r s1 -> matches (Re.Star r) s2 -> matches (Re.Star r) (String.append s1 s2)
| matches_Opt_none r : matches (Re.Opt r) EmptyString
| matches_Opt_some r s : matches r s -> matches (Re.Opt r) s
| matches_Group r s : matches r s -> matches (Re.Group r) s
| matches_Named name r s : matches r s -> matches (Re.Named name r) s.

(** The named groups of a pattern, each with the pattern inside it. *)
Fixpoint named_groups (r : Re.regex) : list (string * Re.regex) :=
  match r with
  | Re.Eps | Re.Lit _ | Re.AnyChar | Re.Class _ => []
  | Re.Seq r1 r2 | Re.Alt r1 r2 => named_groups r1 ++ named_groups r2
  | Re.Star r1 | Re.Opt r1 | Re.Group r1 => named_groups r1
  | Re.Named name r1 => (name, r1) :: named_groups r1
  end.

(** The named groups that take part in every match of a pattern: those
    outside every [?], [*] and [|]. *)
Fixpoint mandatory_groups (r : Re.regex) : list string :=
  match r with
  | Re.Seq r1 r2 => mandatory_groups r1 ++ mandatory_groups r2
  | Re.Group r1 => mandatory_groups r1
  | Re.Named name r1 => name :: mandatory_groups r1
  | _ => []
  end.

(** The attribute that is assigned together with [s] from a group that
    takes part in every match: the base of a growth, the name of the
    resource for its base and growth. *)
Definition base_of (s : Slot) : Slot :=
  match s with
  | health_growth => health_base
  | resource_base | resource_growth => resource_name
  | health_regen_growth => health_regen_base
  | resource_regen_growth => resource_regen_base
  | armor_growth => armor_base
  | attack_growth => attack_base
  | magic_resist_growth => magic_resist_base
  | _ => s
  end.

(** ** The shapes of the values *)

Definition is_digit_or_dot (c : ascii) : bool :=
  ((48 <=? Str.code c) && (Str.code c <=? 57)) || (Str.code c =? 46).

Definition is_space_or_letter (c : ascii) : bool :=
  (Str.code c =? 32) || Str.is_upper c || Str.is_lower c.

Definition is_sign (c : ascii) : bool :=
  (Str.code c =? 43) || (Str.code c =? 45).

Definition nonempty (s : string) : bool :=
  match s with EmptyString => false | String _ _ => true end.

(** Digits and dots, at least one. *)
Definition is_number (v : string) : bool :=
  nonempty v && all_chars is_digit_or_dot v.

(** A sign and then digits and dots, at least one. *)
Definition is_signed_number (v : string) : bool :=
  match v with
  | String c v' => is_sign c && is_number v'
  | EmptyString => false
  end.

(** Letters and spaces, at least one. *)
Definition is_word (v : string) : bool :=
  nonempty v && all_chars is_space_or_letter v.

Fixpoint lower_string (s : string) : string :=
  match s with
  | EmptyString => EmptyString
  | String c s' => String (Str.lower c) (lower_string s')
  end.

(** [N/A] in some case. *)
Definition is_na (v : string) : bool := String.eqb (lower_string v) "n/a".

(** The shape of the values of an attribute. *)
Definition slot_format (s : Slot) (v : string) : bool :=
  match s with
  | resource_name => is_word v
  | resource_base | resource_regen_base => is_na v || is_number v
  | aram_damage_dealt_bonus_percentage | aram_damage_taken_bonus_percentage
  | aram_attack_speed_bonus_percentage | aram_ability_haste_bonus
  | aram_energy_regen_bonus_percentage | aram_healing_bonus_percentage
  | aram_shielding_bonus_percentage | aram_tenacity_bonus_percentage =>
      is_signed_number v
  | _ => is_number v
  end.

(** * Properties *)

(** ** The monad *)

Lemma outcome_bind {A B} (c : M A) (f : A -> M B) :
  outcome (bind c f) =
  match outcome c with
  | inl e => inl e
  | inr a => outcome (f a)
  end.
Proof.
  destruct c as [l [e | a]]; simpl; [reflexivity |].
  destruct (f a); reflexivity.
Qed.

Lemma logs_bind {A B} (c : M A) (f : A -> M B) :
  logs (bind c f) =
  match outcome c with
  | inl e => logs c
  | inr a => logs c ++ logs (f a)
  end.
Proof.
  destruct c as [l [e | a]]; simpl; [reflexivity |].
  destruct (f a); reflexivity.
Qed.

(** ** The rule table agrees with the arms *)

Section RuleTable.

Variables (f : Field) (m : Re.captures) (cs : ChampionStats).

Lemma assign_stats_name : stats_name (assign f m cs) = stats_name cs.
Proof. destruct f; simpl; try reflexivity; case_bool_decide; reflexivity. Qed.

Lemma assign_skipped : skips f m = true -> assign f m cs = cs.
Proof.
  destruct f; simpl; try discriminate; intros Hs;
    apply bool_decide_eq_true in Hs;
    rewrite bool_decide_eq_false_2; auto.
Qed.

Lemma assign_writes (s : Slot) :
  skips f m = false -> In s (slots_of f) ->
  attr (assign f m cs) s = Re.group m (slot_name s).
Proof.
  intros Hs Hin.
  destruct f; simpl in Hs, Hin;
    try (apply bool_decide_eq_false in Hs);
    simpl assign; try (rewrite bool_decide_eq_true_2 by exact Hs);
    repeat (destruct Hin as [<- | Hin]; [reflexivity |]); destruct Hin.
Qed.

Lemma assign_other (s : Slot) :
  ~ In s (slots_of f) -> attr (assign f m cs) s = attr cs s.
Proof.
  intros Hin.
  destruct f; simpl in Hin; simpl assign; try case_bool_decide; try reflexivity;
    unfold setattr; simpl; repeat case_decide; try reflexivity;
    subst; exfalso; apply Hin; auto 6.
Qed.

End RuleTable.

Lemma slots_of_disjoint (f g : Field) (s : Slot) :
  In s (slots_of f) -> In s (slots_of g) -> f = g.
Proof.
  destruct f; simpl; intros Hf;
    repeat (destruct Hf as [<- | Hf]); try (destruct Hf);
    destruct g; simpl; intros Hg;
    repeat (destruct Hg as [Hg | Hg]; [try discriminate Hg |]);
    try (destruct Hg); reflexivity.
Qed.

(** ** One label and its text *)

Lemma observe_outcome (cs : ChampionStats) (field_name text : string) :
  outcome (observe cs field_name text) = inr (observed cs field_name text).
Proof.
  unfold observe, observed. rewrite outcome_bind. simpl.
  destruct (String.eqb text EmptyString); [reflexivity |].
  destruct (select_arm field_name) as [f | |]; try reflexivity.
  destruct (Re.rmatch (regex_of f) text); reflexivity.
Qed.

Lemma observed_cases (cs : ChampionStats) (field_name text : string) :
  observed cs field_name text = cs
  \/ exists f m,
      text <> EmptyString /\ select_arm field_name = Rule f
      /\ Re.rmatch (regex_of f) text = Some m /\ skips f m = false
      /\ observed cs field_name text = assign f m cs.
Proof.
  unfold observed.
  destruct (String.eqb_spec text EmptyString) as [-> | Hne]; [left; reflexivity |].
  destruct (select_arm field_name) as [f | |]; try (left; reflexivity).
  destruct (Re.rmatch (regex_of f) text) as [m |] eqn:Hm; [| left; reflexivity].
  destruct (skips f m) eqn:Hs.
  - left. apply assign_skipped, Hs.
  - right. exists f, m. auto.
Qed.

Lemma observed_qualifying (cs : ChampionStats) (field_name text : string)
      (f : Field) (m : Re.captures) :
  text <> EmptyString -> select_arm field_name = Rule f ->
  Re.rmatch (regex_of f) text = Some m ->
  observed cs field_name text = assign f m cs.
Proof.
  intros Hne Harm Hm. unfold observed.
  destruct (String.eqb_spec text EmptyString); [contradiction |].
  rewrite Harm, Hm. reflexivity.
Qed.

Lemma observed_stats_name (cs : ChampionStats) (field_name text : string) :
  stats_name (observed cs field_name text) = stats_name cs.
Proof.
  destruct (observed_cases cs field_name text) as [-> | (f & m & _ & _ & _ & _ & ->)];
    [reflexivity | apply assign_stats_name].
Qed.

(** ** A whole panel *)

Lemma foldM_visit (details : list Element) (cs : ChampionStats) :
  outcome (foldM visit details cs) = inr (fold_left visited details cs).
Proof.
  revert cs. induction details as [| el details IH]; intros cs; simpl; [reflexivity |].
  rewrite outcome_bind. unfold visit at 1. rewrite observe_outcome. apply IH.
Qed.

Lemma extract_outcome (n : option string) (details : list Element) :
  outcome (extract n details) = inr (fold_left visited details (new_ChampionStats n)).
Proof. apply foldM_visit. Qed.

Lemma fold_visited_stats_name (details : list Element) (cs : ChampionStats) :
  stats_name (fold_left visited details cs) = stats_name cs.
Proof.
  revert cs. induction details as [| el details IH]; intros cs; simpl; [reflexivity |].
  rewrite IH. apply observed_stats_name.
Qed.

(** An element that does not qualify for [f] leaves the attributes of [f]
    as they are. *)
Lemma visited_other (f : Field) (cs : ChampionStats) (el : Element) (s : Slot) :
  (forall m, ~ qualifies f el m) -> In s (slots_of f) ->
  attr (visited cs el) s = attr cs s.
Proof.
  intros Hno Hin. unfold visited.
  destruct (observed_cases cs (data_source el) (flattened_text el))
    as [-> | (g & m & Hne & Harm & Hm & Hs & ->)]; [reflexivity |].
  apply assign_other. intros Hg.
  assert (g = f) as -> by (eapply slots_of_disjoint; eassumption).
  apply (Hno m). repeat split; assumption.
Qed.

Lemma fold_visited_other (f : Field) (details : list Element) (cs : ChampionStats) (s : Slot) :
  (forall el m, In el details -> ~ qualifies f el m) -> In s (slots_of f) ->
  attr (fold_left visited details cs) s = attr cs s.
Proof.
  revert cs. induction details as [| el details IH]; intros cs Hno Hin; simpl; [reflexivity |].
  rewrite IH; [| intros el' m' Hel; apply Hno; right; exact Hel | exact Hin].
  apply visited_other with (f := f); [| exact Hin].
  intros m. apply Hno. left. reflexivity.
Qed.

(** C8. At the label [health], the text [Health 600 (+ 90)] sets
    [health_base] to [600] and [health_growth] to [90]; the text
    [Health 600], which has no growth clause, sets [health_base] to [600]
    and [health_growth] to [None]. *)
Theorem health_examples (cs : ChampionStats) :
  (exists cs',
      outcome (observe cs "health" "Health 600 (+ 90)") = inr cs'
      /\ attr cs' health_base = Some "600" /\ attr cs' health_growth = Some "90")
  /\ (exists cs',
        outcome (observe cs "health" "Health 600") = inr cs'
        /\ attr cs' health_base = Some "600" /\ attr cs' health_growth = None).
Proof.
  split; eexists; (split; [apply observe_outcome |]); split; reflexivity.
Qed.

(** C3. At the label [resource], the text [Mana 100 (+ 10)] sets
    [resource_name], [resource_base] and [resource_growth] to [Mana],
    [100] and [10]; the text [Resource N/A] changes nothing, so the three
    attributes of a new record stay unset; and at the label
    [resource regen] a match whose base is [N/A] changes nothing. *)
Theorem resource_examples :
  (forall cs, exists cs',
        outcome (observe cs "resource" "Mana 100 (+ 10)") = inr cs'
        /\ attr cs' resource_name = Some "Mana"
        /\ attr cs' resource_base = Some "100"
        /\ attr cs' resource_growth = Some "10")
  /\ (forall cs, outcome (observe cs "resource" "Resource N/A") = inr cs)
  /\ (forall n, exists cs',
          outcome (extract n [observation "resource" "Resource N/A"]) = inr cs'
          /\ attr cs' resource_name = None
          /\ attr cs' resource_base = None
          /\ attr cs' resource_growth = None)
  /\ (forall cs text m,
         Re.rmatch RESOURCE_REGEN_REGEX text = Some m ->
         Re.group m "resource_regen_base" = Some "N/A" ->
         outcome (observe cs "resource regen" text) = inr cs
         /\ forall n, cs = new_ChampionStats n ->
                      attr cs resource_regen_base = None
                      /\ attr cs resource_regen_growth = None).
Proof.
  repeat apply conj.
  - intros cs. eexists. split; [apply observe_outcome |]. repeat split; reflexivity.
  - intros cs. rewrite observe_outcome. reflexivity.
  - intros n. eexists. split; [apply extract_outcome |]. repeat split; reflexivity.
  - intros cs text m Hm Hbase. split; [| intros n ->; split; reflexivity].
    rewrite observe_outcome. f_equal. unfold observed.
    destruct (String.eqb text EmptyString); [reflexivity |].
    change (select_arm "resource regen") with (Rule ResourceRegen). cbv beta iota.
    change (regex_of ResourceRegen) with RESOURCE_REGEN_REGEX.
    rewrite Hm. apply assign_skipped. simpl. rewrite Hbase. reflexivity.
Qed.

(** The text [Resource regen. N/A] is such a match. *)
Lemma resource_examples_witness :
  outcome (observe (new_ChampionStats (Some "Garen")) "resource regen" "Resource regen. N/A")
  = inr (new_ChampionStats (Some "Garen")).
Proof.
  apply (proj2 (proj2 (proj2 resource_examples))
           (new_ChampionStats (Some "Garen")) "Resource regen. N/A"
           [("resource_regen_base", "N/A")]);
    reflexivity.
Defined.

(** C10. The patterns ignore case but the placeholder tests do not: at
    the label [resource regen] the text [mana regen. n/a] matches and
    sets [resource_regen_base] to [n/a]; a match is passed over exactly
    when its base is spelled [N/A], and at the label [resource] exactly
    when its name is spelled [Resource]. *)
Theorem placeholders_are_case_sensitive :
  (forall cs, exists cs',
        outcome (observe cs "resource regen" "mana regen. n/a") = inr cs'
        /\ attr cs' resource_regen_base = Some "n/a")
  /\ (forall cs, exists cs',
          outcome (observe cs "resource" "resource n/a") = inr cs'
          /\ attr cs' resource_name = Some "resource"
          /\ attr cs' resource_base = Some "n/a")
  /\ (forall cs text m,
         text <> EmptyString ->
         Re.rmatch RESOURCE_REGEN_REGEX text = Some m ->
         (Re.group m "resource_regen_base" = Some "N/A" ->
          outcome (observe cs "resource regen" text) = inr cs)
         /\ (Re.group m "resource_regen_base" <> Some "N/A" ->
             exists cs',
               outcome (observe cs "resource regen" text) = inr cs'
               /\ attr cs' resource_regen_base = Re.group m "resource_regen_base"
               /\ attr cs' resource_regen_growth = Re.group m "resource_regen_growth"))
  /\ (forall cs text m,
         text <> EmptyString ->
         Re.rmatch RESOURCE_REGEX text = Some m ->
         (Re.group m "resource_name" = Some "Resource" ->
          outcome (observe cs "resource" text) = inr cs)
         /\ (Re.group m "resource_name" <> Some "Resource" ->
             exists cs',
               outcome (observe cs "resource" text) = inr cs'
               /\ attr cs' resource_name = Re.group m "resource_name"
               /\ attr cs' resource_base = Re.group m "resource_base"
               /\ attr cs' resource_growth = Re.group m "resource_growth")).
Proof.
  repeat apply conj.
  - intros cs. eexists. split; [apply observe_outcome |]. reflexivity.
  - intros cs. eexists. split; [apply observe_outcome |]. split; reflexivity.
  - intros cs text m Hne Hm.
    assert (Hobs : observed cs "resource regen" text = assign ResourceRegen m cs)
      by (apply observed_qualifying; [exact Hne | reflexivity | exact Hm]).
    split; intros Hbase.
    + rewrite observe_outcome, Hobs. f_equal. apply assign_skipped.
      simpl. rewrite Hbase. reflexivity.
    + eexists. split; [rewrite observe_outcome, Hobs; reflexivity |].
      split; apply assign_writes; simpl; auto using bool_decide_eq_false_2.
  - intros cs text m Hne Hm.
    assert (Hobs : observed cs "resource" text = assign Resource m cs)
      by (apply observed_qualifying; [exact Hne | reflexivity | exact Hm]).
    split; intros Hname.
    + rewrite observe_outcome, Hobs. f_equal. apply assign_skipped.
      simpl. rewrite Hname. reflexivity.
    + eexists. split; [rewrite observe_outcome, Hobs; reflexivity |].
      repeat split; apply assign_writes; simpl; auto using bool_decide_eq_false_2.
Qed.

(** The text [Mana regen. (per 5s) 8 (+ 0.8)] is a match with base [8]. *)
Lemma placeholders_are_case_sensitive_witness :
  exists cs',
    outcome (observe (new_ChampionStats None) "resource regen" "Mana regen. (per 5s) 8 (+ 0.8)")
    = inr cs'
    /\ attr cs' resource_regen_base = Some "8"
    /\ attr cs' resource_regen_growth = Some "0.8".
Proof.
  apply (proj2 (proj1 (proj2 (proj2 placeholders_are_case_sensitive))
                      (new_ChampionStats None) "Mana regen. (per 5s) 8 (+ 0.8)"
                      [("resource_regen_growth", "0.8"); ("resource_regen_base", "8")]
                      ltac:(discriminate) eq_refl));
    discriminate.
Defined.

(** ** Which arm a label selects *)

(** Case analysis on every [==] test of [select_arm] against the label [l]. *)
Ltac split_label l :=
  repeat match goal with
         | |- context [String.eqb l ?k] =>
             destruct (String.eqb_spec l k) as [-> | ?]
         end.

Lemma select_arm_label (f : Field) : select_arm (label_of f) = Rule f.
Proof. destruct f; reflexivity. Qed.

Lemma select_arm_literal (l : string) (f : Field) :
  f <> PathingRadius -> select_arm l = Rule f -> l = label_of f.
Proof.
  intros Hf. unfold select_arm. split_label l;
    try (intros [= <-]; reflexivity).
  destruct (Str.contains "pathing radius" l); [intros [= <-]; contradiction |].
  destruct (existsb _ _); discriminate.
Qed.

Lemma select_arm_pathing (l : string) :
  select_arm l = Rule PathingRadius <-> Str.contains "pathing radius" l = true.
Proof.
  unfold select_arm. split.
  - split_label l; try discriminate.
    destruct (Str.contains "pathing radius" l); [reflexivity |].
    destruct (existsb _ _); discriminate.
  - split_label l; try discriminate.
    intros ->. reflexivity.
Qed.

Lemma select_arm_ignored (l : string) :
  select_arm l = Ignored <->
  (forall f, l <> label_of f)
  /\ Str.contains "pathing radius" l = false
  /\ existsb (Str.startswith l) ignored_prefixes = true.
Proof.
  split.
  - intros Harm. assert (Hlit : forall f, l <> label_of f).
    { intros f ->. rewrite select_arm_label in Harm. discriminate. }
    split; [exact Hlit |]. revert Harm. unfold select_arm. split_label l; try discriminate.
    destruct (Str.contains "pathing radius" l); [discriminate |].
    destruct (existsb _ _); [auto | discriminate].
  - intros (Hlit & Hpath & Hpre). unfold select_arm.
    split_label l;
      try match goal with
          | |- context [Rule ?f] => exfalso; apply (Hlit f); reflexivity
          end.
    rewrite Hpath, Hpre. reflexivity.
Qed.

(** C7, as the code has it.  An arm with a literal is selected by
    exactly the label equal to the literal; the arm of the pathing radius
    is selected by exactly the labels that contain [pathing radius]
    somewhere; and the arm of the ignored labels by the labels that are
    no literal, do not contain [pathing radius] and start with one of
    the listed prefixes. *)
Theorem dispatch_by_literal_containment_or_prefix (l : string) :
  (forall f, f <> PathingRadius -> (select_arm l = Rule f <-> l = label_of f))
  /\ (select_arm l = Rule PathingRadius <-> Str.contains "pathing radius" l = true)
  /\ (select_arm l = Ignored <->
      (forall f, l <> label_of f)
      /\ Str.contains "pathing radius" l = false
      /\ existsb (Str.startswith l) ignored_prefixes = true).
Proof.
  split; [| split].
  - intros f Hf. split; [apply select_arm_literal, Hf |].
    intros ->. apply select_arm_label.
  - apply select_arm_pathing.
  - apply select_arm_ignored.
Qed.

(** The label [pathing radius] selects the arm of the pathing radius
    because it contains the key. *)
Lemma dispatch_by_literal_containment_or_prefix_witness :
  select_arm "pathing radius" = Rule PathingRadius.
Proof.
  apply (proj2 (proj1 (proj2 (dispatch_by_literal_containment_or_prefix "pathing radius")))).
  reflexivity.
Defined.

(** C7 fails as stated: the label [nb-pathing radius] does not begin with
    [pathing radius], and it begins with an ignored prefix, yet it
    selects the arm of the pathing radius, whose pattern is then applied
    to its text. *)
Lemma pathing_radius_not_by_prefix :
  Str.startswith "nb-pathing radius" "pathing radius" = false
  /\ select_arm "nb-pathing radius" = Rule PathingRadius
  /\ attr (observed (new_ChampionStats None) "nb-pathing radius" "Pathing radius 35")
          pathing_radius = Some "35".
Proof. repeat split. Qed.

(** ** Texts that fail their pattern, and repeated labels *)

(** C2. When the text of an observation does not match the pattern of
    the arm its label selects, the loop raises nothing and returns the
    record as it was; and when that holds for every element of a panel
    that selects the arm, the attributes of the arm are unset in the
    extracted record. *)
Theorem failed_match_leaves_unset :
  (forall cs field_name text f,
      select_arm field_name = Rule f ->
      Re.rmatch (regex_of f) text = None ->
      outcome (observe cs field_name text) = inr cs)
  /\ (forall n details f,
         (forall el, In el details ->
                     select_arm (data_source el) = Rule f ->
                     Re.rmatch (regex_of f) (flattened_text el) = None) ->
         exists cs,
           outcome (extract n details) = inr cs
           /\ forall s, In s (slots_of f) -> attr cs s = None).
Proof.
  split.
  - intros cs field_name text f Harm Hm. rewrite observe_outcome. f_equal.
    unfold observed. rewrite Harm, Hm.
    destruct (String.eqb text EmptyString); reflexivity.
  - intros n details f Hfail. eexists. split; [apply extract_outcome |].
    intros s Hs. rewrite fold_visited_other with (f := f); [reflexivity | | exact Hs].
    intros el m Hel (_ & Harm & Hm & _).
    rewrite (Hfail el Hel Harm) in Hm. discriminate.
Qed.

(** A panel whose [health] text does not start with [Health]. *)
Lemma failed_match_leaves_unset_witness :
  outcome (observe (new_ChampionStats None) "health" "HP 600 (+ 90)")
  = inr (new_ChampionStats None)
  /\ exists cs,
      outcome (extract None [observation "health" "HP 600 (+ 90)";
                             observation "armor" "Armor 30 (+ 4)"]) = inr cs
      /\ forall s, In s (slots_of Health) -> attr cs s = None.
Proof.
  split.
  - apply (proj1 failed_match_leaves_unset _ _ _ Health); reflexivity.
  - apply (proj2 failed_match_leaves_unset None _ Health).
    intros el [<- | [<- | []]]; [reflexivity | discriminate].
Defined.

(** C4, as the code has it.  The attributes of an arm hold what the last
    qualifying element of the panel gives them, whatever the elements
    before it set: a later element with the same label overwrites them
    when it qualifies and leaves them alone when it does not. *)
Theorem last_qualifying_observation_wins
        (n : option string) (before after : list Element) (el : Element)
        (f : Field) (m : Re.captures) :
  qualifies f el m ->
  (forall el' m', In el' after -> ~ qualifies f el' m') ->
  exists cs,
    outcome (extract n (before ++ el :: after)) = inr cs
    /\ forall s, In s (slots_of f) -> attr cs s = Re.group m (slot_name s).
Proof.
  intros (Hne & Harm & Hm & Hs) Hafter. eexists. split; [apply extract_outcome |].
  intros s Hin. rewrite fold_left_app. simpl.
  rewrite fold_visited_other with (f := f); [| exact Hafter | exact Hin].
  unfold visited. rewrite (observed_qualifying _ _ _ f m Hne Harm Hm).
  apply assign_writes; assumption.
Qed.

(** Two elements with the label [health]: the second one decides. *)
Lemma last_qualifying_observation_wins_witness :
  exists cs,
    outcome (extract None ([observation "health" "Health 600 (+ 90)"]
                             ++ observation "health" "Health 700 (+ 95)"
                             :: [observation "health" "n/a"])) = inr cs
    /\ forall s, In s (slots_of Health) ->
                 attr cs s = Re.group [("health_growth", "95"); ("health_base", "700")]
                                      (slot_name s).
Proof.
  apply (last_qualifying_observation_wins None _ _ _ Health).
  - repeat split; discriminate.
  - intros el' m' [<- | []] (_ & _ & Hm & _). discriminate.
Defined.

(** C4 fails as stated: after [Health 600 (+ 90)] has set both
    attributes, a later element with the same label and the text
    [Health 700] replaces the base and unsets the growth. *)
Lemma later_observation_overwrites :
  exists cs1 cs2,
    outcome (extract None [observation "health" "Health 600 (+ 90)"]) = inr cs1
    /\ attr cs1 health_base = Some "600"
    /\ attr cs1 health_growth = Some "90"
    /\ outcome (extract None [observation "health" "Health 600 (+ 90)";
                              observation "health" "Health 700"]) = inr cs2
    /\ attr cs2 health_base = Some "700"
    /\ attr cs2 health_growth = None.
Proof.
  do 2 eexists. split; [apply extract_outcome |]. do 2 (split; [reflexivity |]).
  split; [apply extract_outcome |]. split; reflexivity.
Qed.

(** ** The retry loop *)

Section Retry.

Variables (context : string) (attempt : nat -> option Error).

(** The three attempts, case by case. *)
Lemma AsyncRetrying_3 :
  AsyncRetrying 3 context attempt =
  match attempt 1 with
  | None => ([Info_started context 1], inr tt)
  | Some e1 =>
      match attempt 2 with
      | None =>
          ([Info_started context 1; Info_failed context 1 e1;
            Info_started context 2], inr tt)
      | Some e2 =>
          ([Info_started context 1; Info_failed context 1 e1;
            Info_started context 2; Info_failed context 2 e2;
            Info_started context 3],
           match attempt 3 with
           | None => inr tt
           | Some e3 => inl e3
           end)
      end
  end.
Proof.
  unfold AsyncRetrying. simpl.
  destruct (attempt 1); [| reflexivity].
  destruct (attempt 2); [| reflexivity].
  destruct (attempt 3); reflexivity.
Qed.

(** The loop starts attempt [k] only after the [k - 1] attempts before
    it have failed, and never more than [3]. *)
Lemma AsyncRetrying_3_started (k : nat) :
  In (Info_started context k) (logs (AsyncRetrying 3 context attempt)) ->
  1 <= k <= 3 /\ forall j, 1 <= j < k -> attempt j <> None.
Proof.
  rewrite AsyncRetrying_3.
  destruct (attempt 1) eqn:H1; [destruct (attempt 2) eqn:H2 |]; simpl;
    intros Hin; repeat (destruct Hin as [[= <-] | Hin]; try discriminate);
    try (destruct Hin); (split; [lia |]); intros j Hj;
    destruct j as [| [| [| j]]]; try lia; congruence.
Qed.

(** A failed attempt is logged exactly when another attempt follows. *)
Lemma AsyncRetrying_3_failed (k : nat) (e : Error) :
  In (Info_failed context k e) (logs (AsyncRetrying 3 context attempt)) <->
  1 <= k < 3 /\ attempt k = Some e /\ forall j, 1 <= j < k -> attempt j <> None.
Proof.
  rewrite AsyncRetrying_3. split.
  - destruct (attempt 1) eqn:H1; [destruct (attempt 2) eqn:H2 |]; simpl;
      intros Hin; repeat (destruct Hin as [[= <- <-] | Hin]; try discriminate);
      try (destruct Hin); (split; [lia |]); (split; [assumption |]); intros j Hj;
      destruct j as [| [| [| j]]]; try lia; congruence.
  - intros (Hk & He & Hbefore).
    destruct k as [| [| [| k]]]; try lia.
    + rewrite He. destruct (attempt 2); simpl; auto.
    + destruct (attempt 1) eqn:H1; [| exfalso; apply (Hbefore 1); [lia | exact H1]].
      rewrite He. simpl. auto.
Qed.

End Retry.

(** ** The listing crawl *)

(** What [parse_row] returns, case by case. *)
Lemma parse_row_outcome (base_url : option string) (row : Tr) :
  outcome (parse_row base_url row) =
  match xpath_td row 1, xpath_td row 4 with
  | td1 :: _, td4 :: _ =>
      match anchors td1 with
      | [] => inl IndexError
      | a :: _ =>
          match base_url, a with
          | Some base, Some href =>
              inr {| name := data_sort_value td1;
                     last_changed_patch := Str.strip (text_content td4);
                     stats_url := String.append base href |}
          | _, _ => inl TypeError
          end
      end
  | _, _ => inl IndexError
  end.
Proof.
  unfold parse_row.
  destruct (xpath_td row 1) as [| td1 ?]; [reflexivity |].
  destruct (xpath_td row 4) as [| td4 ?]; [reflexivity |].
  cbn -[Str.strip String.append].
  destruct (anchors td1) as [| [href |] ?]; [reflexivity | |];
    destruct base_url; reflexivity.
Qed.

(** A row that is read has the two cells and a first link with an
    address, and the table has a base URL. *)
Lemma parse_row_returns (base_url : option string) (row : Tr) (entry : ChampionEntry) :
  outcome (parse_row base_url row) = inr entry <->
  exists td1 td4 href base,
    xpath_td row 1 = [td1] /\ xpath_td row 4 = [td4]
    /\ hd_error (anchors td1) = Some (Some href)
    /\ base_url = Some base
    /\ entry = {| name := data_sort_value td1;
                  last_changed_patch := Str.strip (text_content td4);
                  stats_url := String.append base href |}.
Proof.
  rewrite parse_row_outcome. unfold xpath_td. split.
  - destruct (row !! 0) as [td1 |]; [| discriminate].
    destruct (row !! 3) as [td4 |]; [| discriminate].
    destruct (anchors td1) as [| [href |] ?] eqn:Ha; try discriminate;
      destruct base_url as [base |]; try discriminate.
    intros [= <-]. exists td1, td4, href, base. rewrite Ha. auto.
  - intros (td1 & td4 & href & base & H1 & H4 & Ha & -> & ->).
    destruct (row !! 0) as [c1 |]; [| discriminate]. injection H1 as ->.
    destruct (row !! 3) as [c4 |]; [| discriminate]. injection H4 as ->.
    destruct (anchors td1) as [| a ?]; [discriminate |]. injection Ha as ->. reflexivity.
Qed.

Lemma parse_rows_step (base_url : option string) (rows : list Tr) (acc : list ChampionEntry) :
  outcome (foldM (fun champion_entrys row =>
                    do entry <- parse_row base_url row;
                    ret (champion_entrys ++ [entry])) rows acc) =
  match rows with
  | [] => inr acc
  | row :: rows' =>
      match outcome (parse_row base_url row) with
      | inl e => inl e
      | inr entry =>
          outcome (foldM (fun champion_entrys row =>
                            do entry <- parse_row base_url row;
                            ret (champion_entrys ++ [entry])) rows' (acc ++ [entry]))
      end
  end.
Proof.
  destruct rows as [| row rows']; [reflexivity |].
  simpl foldM. rewrite !outcome_bind.
  destruct (outcome (parse_row base_url row)); reflexivity.
Qed.

(** The rows that were read, in order, when the loop returns. *)
Lemma parse_rows_returns (base_url : option string) (rows : list Tr)
      (acc entries : list ChampionEntry) :
  outcome (foldM (fun champion_entrys row =>
                    do entry <- parse_row base_url row;
                    ret (champion_entrys ++ [entry])) rows acc) = inr entries ->
  exists new,
    entries = acc ++ new
    /\ Forall2 (fun row entry => outcome (parse_row base_url row) = inr entry) rows new.
Proof.
  revert acc. induction rows as [| row rows IH]; intros acc; rewrite parse_rows_step.
  - intros [= <-]. exists []. split; [symmetry; apply app_nil_r | constructor].
  - destruct (outcome (parse_row base_url row)) as [e | entry] eqn:Hrow; [discriminate |].
    intros Hrest. destruct (IH _ Hrest) as (new & -> & Hall).
    exists (entry :: new). split; [rewrite <- app_assoc; reflexivity |].
    constructor; assumption.
Qed.

Lemma parse_rows_total (base_url : option string) (rows : list Tr) (acc : list ChampionEntry) :
  Forall (fun row => exists entry, outcome (parse_row base_url row) = inr entry) rows ->
  exists entries,
    outcome (foldM (fun champion_entrys row =>
                      do entry <- parse_row base_url row;
                      ret (champion_entrys ++ [entry])) rows acc) = inr entries.
Proof.
  intros Hall. revert acc.
  induction Hall as [| row rows [entry Hrow] _ IH]; intros acc; rewrite parse_rows_step.
  - eauto.
  - rewrite Hrow. apply IH.
Qed.

Lemma parse_champion_entrys_outcome (page : ListingPage) (base_url : string) :
  outcome (parse_champion_entrys page base_url) =
  match outcome (AsyncRetrying 3 (goto_context (String.append base_url "/wiki/List_of_champions"))
                               (listing_goto page)) with
  | inl e => inl e
  | inr _ =>
      match listing_rows page with
      | inl e => inl e
      | inr rows => outcome (parse_rows (listing_base_url page) rows)
      end
  end.
Proof.
  unfold parse_champion_entrys. rewrite outcome_bind.
  destruct (outcome (AsyncRetrying _ _ _)); [reflexivity |].
  rewrite outcome_bind. destruct (listing_rows page); reflexivity.
Qed.

Lemma Forall2_In_l {A B} (P : A -> B -> Prop) (l : list A) (k : list B) (x : A) :
  Forall2 P l k -> In x l -> exists y, P x y.
Proof.
  induction 1 as [| a b l k Hab _ IH]; intros Hin; [destruct Hin |].
  destruct Hin as [<- | Hin]; eauto.
Qed.

Lemma AsyncRetrying_3_succeeds (context : string) (attempt : nat -> option Error) :
  (exists k, 1 <= k <= 3 /\ attempt k = None) ->
  outcome (AsyncRetrying 3 context attempt) = inr tt.
Proof.
  intros (k & Hk & Hnone). rewrite AsyncRetrying_3.
  destruct (attempt 1) eqn:H1; [| reflexivity].
  destruct (attempt 2) eqn:H2; [| reflexivity].
  destruct (attempt 3) eqn:H3; [| reflexivity].
  destruct k as [| [| [| [| k]]]]; try lia; congruence.
Qed.

(** C6, as the code has it.  With the rows of the roster table at hand:
    a row without a first cell, without a fourth cell or without a link
    in its first cell makes the crawl raise, and so does a row whose
    first link has no address, and a table with rows that gives back no
    base URL, so that no roster is returned; a returned roster has one
    entry per row, in the order of the rows, whose name is the
    [data-sort-value] of the first cell; and a roster is returned when
    the page loads within three attempts, the table gives back a base
    URL and every row has the two cells and a first link with an
    address. *)
Theorem listing_is_all_or_nothing (page : ListingPage) (base_url : string) (rows : list Tr) :
  listing_rows page = inr rows ->
  (forall row,
      In row rows ->
      xpath_td row 1 = [] \/ xpath_td row 4 = []
      \/ (exists td1, xpath_td row 1 = [td1] /\ anchors td1 = []) ->
      exists e, outcome (parse_champion_entrys page base_url) = inl e)
  /\ (forall row td1,
         In row rows ->
         xpath_td row 1 = [td1] -> hd_error (anchors td1) = Some None ->
         exists e, outcome (parse_champion_entrys page base_url) = inl e)
  /\ (listing_base_url page = None -> rows <> [] ->
      exists e, outcome (parse_champion_entrys page base_url) = inl e)
  /\ (forall entries,
         outcome (parse_champion_entrys page base_url) = inr entries ->
         Forall2 (fun row entry =>
                    exists td1 td4 href base,
                      xpath_td row 1 = [td1] /\ xpath_td row 4 = [td4]
                      /\ hd_error (anchors td1) = Some (Some href)
                      /\ listing_base_url page = Some base
                      /\ entry = {| name := data_sort_value td1;
                                    last_changed_patch := Str.strip (text_content td4);
                                    stats_url := String.append base href |})
                 rows entries)
  /\ ((exists k, 1 <= k <= 3 /\ listing_goto page k = None) ->
      (exists base, listing_base_url page = Some base) ->
      Forall (fun row =>
                exists td1 td4 href,
                  xpath_td row 1 = [td1] /\ xpath_td row 4 = [td4]
                  /\ hd_error (anchors td1) = Some (Some href)) rows ->
      exists entries, outcome (parse_champion_entrys page base_url) = inr entries).
Proof.
  intros Hrows.
  assert (Hret : forall entries,
             outcome (parse_champion_entrys page base_url) = inr entries ->
             Forall2 (fun row entry =>
                        outcome (parse_row (listing_base_url page) row) = inr entry)
                     rows entries).
  { intros entries. rewrite parse_champion_entrys_outcome, Hrows.
    destruct (outcome (AsyncRetrying _ _ _)); [discriminate |].
    intros Hloop. apply parse_rows_returns in Hloop as (new & -> & Hall). exact Hall. }
  assert (Hrow : forall row,
             In row rows ->
             (forall entry, outcome (parse_row (listing_base_url page) row) <> inr entry) ->
             exists e, outcome (parse_champion_entrys page base_url) = inl e).
  { intros row Hin Hbad.
    destruct (outcome (parse_champion_entrys page base_url)) as [e | entries] eqn:Hout;
      [eauto |].
    destruct (Forall2_In_l _ _ _ _ (Hret _ eq_refl) Hin) as [entry Hentry].
    destruct (Hbad entry Hentry). }
  repeat apply conj.
  - intros row Hin Hmissing. apply (Hrow row Hin). intros entry Hentry.
    apply parse_row_returns in Hentry as (td1 & td4 & href & base & H1 & H4 & Ha & _).
    destruct Hmissing as [H1' | [H4' | (td1' & H1' & Ha')]]; try congruence.
    rewrite H1 in H1'. injection H1' as <-. rewrite Ha' in Ha. discriminate.
  - intros row td1 Hin H1 Ha. apply (Hrow row Hin). intros entry Hentry.
    apply parse_row_returns in Hentry as (td1' & td4 & href & base & H1' & _ & Ha' & _).
    rewrite H1 in H1'. injection H1' as <-. congruence.
  - intros Hbase Hne. destruct rows as [| row rows']; [contradiction |].
    apply (Hrow row (or_introl eq_refl)). intros entry Hentry.
    apply parse_row_returns in Hentry as (_ & _ & _ & base & _ & _ & _ & Hb & _).
    congruence.
  - intros entries Hout. eapply Forall2_impl; [apply Hret, Hout |].
    intros row entry Hentry. apply parse_row_returns in Hentry. exact Hentry.
  - intros Hnav [base Hbase] Hall. rewrite parse_champion_entrys_outcome, Hrows.
    rewrite (AsyncRetrying_3_succeeds _ _ Hnav).
    apply parse_rows_total. eapply Forall_impl; [exact Hall |].
    intros row (td1 & td4 & href & H1 & H4 & Ha). eexists.
    apply parse_row_returns. exists td1, td4, href, base. auto.
Qed.

(** ** The orchestration *)

Lemma take_length_take {A} (k : nat) (xs : list A) :
  take k xs = take (length (take k xs)) xs.
Proof.
  rewrite length_take. destruct (Nat.le_gt_cases k (length xs)).
  - f_equal. lia.
  - rewrite Nat.min_r by lia. rewrite !take_ge; [reflexivity | lia | lia].
Qed.

(** [xs[:stop]] is a prefix of [xs]. *)
Lemma slice_to_take {A} (xs : list A) (stop : option Z) :
  slice_to xs stop = take (length (slice_to xs stop)) xs.
Proof.
  unfold slice_to. destruct stop as [n |]; [destruct (0 <=? n)%Z |].
  - apply take_length_take.
  - apply take_length_take.
  - rewrite take_ge; [reflexivity | lia].
Qed.

Section Gather.

Context {A : Type}.
Implicit Types (tasks : list (Error + A)) (results : list (option A)) (l : list A).

(** A filled position holds the result of the task at that position. *)
Lemma gather_run_returns tasks completion results results' :
  (forall i a, results !! i = Some (Some a) -> tasks !! i = Some (inr a)) ->
  gather_run tasks completion results = inr results' ->
  length results' = length results
  /\ forall i a, results' !! i = Some (Some a) -> tasks !! i = Some (inr a).
Proof.
  revert results. induction completion as [| j completion IH]; intros results Hres; simpl.
  - intros [= <-]. auto.
  - destruct (tasks !! j) as [[e | a] |] eqn:Hj; [discriminate | | apply IH, Hres].
    intros Hrun. apply IH in Hrun as [Hlen Hfilled].
    + rewrite length_insert in Hlen. auto.
    + intros i b. destruct (decide (i = j)) as [-> | Hne].
      * intros Hi. apply lookup_lt_Some in Hi as Hlt. rewrite length_insert in Hlt.
        rewrite list_lookup_insert_eq in Hi by exact Hlt. congruence.
      * rewrite list_lookup_insert_ne by congruence. apply Hres.
Qed.

Lemma collect_Some results l :
  collect results = Some l -> results = map Some l.
Proof.
  revert l. induction results as [| [a |] results IH]; intros l; simpl.
  - intros [= <-]. reflexivity.
  - destruct (collect results) as [l' |]; [| discriminate].
    intros [= <-]. simpl. f_equal. apply IH. reflexivity.
  - discriminate.
Qed.

(** What [gather] returns is the list of the results of the tasks, in
    the order of the tasks. *)
Lemma gather_returns tasks completion l :
  gather tasks completion = Some (inr l) -> tasks = map inr l.
Proof.
  unfold gather.
  destruct (gather_run _ _ _) as [e | results] eqn:Hrun; [discriminate |].
  destruct (collect results) as [l' |] eqn:Hcollect; [| discriminate].
  intros [= ->]. apply collect_Some in Hcollect as ->.
  apply gather_run_returns in Hrun as [Hlen Hfilled].
  - rewrite length_map, length_replicate in Hlen.
    apply list_eq. intros i. destruct (l !! i) as [a |] eqn:Hi.
    + rewrite (Hfilled i a).
      * change (map inr l) with (@inr Error A <$> l). rewrite list_lookup_fmap, Hi. reflexivity.
      * change (map Some l) with (Some <$> l). rewrite list_lookup_fmap, Hi. reflexivity.
    + apply lookup_ge_None in Hi.
      rewrite !(proj2 (lookup_ge_None _ _)); [reflexivity | |]; rewrite ?length_map; lia.
  - intros i a Hi. apply lookup_replicate in Hi as [[=] _].
Qed.

(** When no task raises, a position is filled once its task has
    finished. *)
Lemma gather_run_fills l completion results :
  length results = length l ->
  exists results',
    gather_run (map inr l) completion results = inr results'
    /\ length results' = length l
    /\ forall i a, l !! i = Some a ->
                   In i completion \/ results !! i = Some (Some a) ->
                   results' !! i = Some (Some a).
Proof.
  revert results. induction completion as [| j completion IH]; intros results Hlen; simpl.
  - exists results. repeat split; [exact Hlen |]. intros i a _ [[] | Hi]. exact Hi.
  - change (map inr l) with (@inr Error A <$> l). rewrite list_lookup_fmap.
    destruct (l !! j) as [b |] eqn:Hj; simpl.
    + destruct (IH (<[j := Some b]> results)) as (results' & Hrun & Hlen' & Hfill);
        [rewrite length_insert; exact Hlen |].
      exists results'. repeat split; [exact Hrun | exact Hlen' |].
      intros i a Hi Hor. apply Hfill; [exact Hi |].
      destruct (decide (i = j)) as [-> | Hne].
      * right. apply lookup_lt_Some in Hj as Hlt.
        rewrite list_lookup_insert_eq by lia. congruence.
      * destruct Hor as [[-> | Hin] | Hres]; [congruence | auto |].
        right. rewrite list_lookup_insert_ne by congruence. exact Hres.
    + destruct (IH results Hlen) as (results' & Hrun & Hlen' & Hfill).
      exists results'. repeat split; [exact Hrun | exact Hlen' |].
      intros i a Hi Hor. apply Hfill; [exact Hi |].
      destruct Hor as [[-> | Hin] | Hres]; [congruence | auto | auto].
Qed.

Lemma collect_filled results l :
  length results = length l ->
  (forall i a, l !! i = Some a -> results !! i = Some (Some a)) ->
  collect results = Some l.
Proof.
  revert l. induction results as [| r results IH]; intros [| a l] Hlen Hfill;
    try discriminate; [reflexivity |].
  specialize (Hfill 0 a eq_refl) as H0. injection H0 as ->. simpl.
  rewrite (IH l); [reflexivity | simpl in Hlen; lia |].
  intros i b Hi. apply (Hfill (S i) b Hi).
Qed.

(** When no task raises and every task finishes, [gather] returns. *)
Lemma gather_total l completion :
  (forall i, i < length l -> In i completion) ->
  gather (map inr l) completion = Some (inr l).
Proof.
  intros Hall. unfold gather.
  destruct (gather_run_fills l completion (replicate (length (map (@inr Error A) l)) None))
    as (results' & -> & Hlen & Hfill);
    [rewrite length_replicate, length_map; reflexivity |].
  rewrite (collect_filled results' l); [reflexivity | exact Hlen |].
  intros i a Hi. apply (Hfill i a Hi). left.
  apply Hall. eapply lookup_lt_Some, Hi.
Qed.

End Gather.

Lemma parse_champion_stats_outcome (entry : ChampionEntry) (page : StatsPage) :
  outcome (parse_champion_stats entry page) =
  match outcome (AsyncRetrying 3 (goto_context (stats_url entry)) (stats_attempt page)) with
  | inl e => inl e
  | inr _ =>
      match stats_details page with
      | inl e => inl e
      | inr details => inr (fold_left visited details (new_ChampionStats (name entry)))
      end
  end.
Proof.
  unfold parse_champion_stats. rewrite outcome_bind.
  destruct (outcome (AsyncRetrying _ _ _)); [reflexivity |].
  rewrite outcome_bind. destruct (stats_details page); [reflexivity |].
  apply extract_outcome.
Qed.

(** The record of a detail crawl carries the name of its entry. *)
Lemma parse_champion_stats_name (entry : ChampionEntry) (page : StatsPage)
      (stats : ChampionStats) :
  outcome (parse_champion_stats entry page) = inr stats ->
  stats_name stats = name entry.
Proof.
  rewrite parse_champion_stats_outcome.
  destruct (outcome (AsyncRetrying _ _ _)); [discriminate |].
  destruct (stats_details page); [discriminate |].
  intros [= <-]. apply fold_visited_stats_name.
Qed.

Lemma all_returned {A} (tasks : list (Error + A)) :
  (forall i t, tasks !! i = Some t -> exists a, t = inr a) ->
  exists l, tasks = map inr l.
Proof.
  induction tasks as [| t tasks IH]; intros Hall; [exists []; reflexivity |].
  destruct (Hall 0 t eq_refl) as [a ->].
  destruct IH as [l ->]; [intros i t Hi; apply (Hall (S i) t Hi) |].
  exists (a :: l). reflexivity.
Qed.

Section Main.

Variables (env : ENV) (run : Run) (entries : list ChampionEntry).

Hypothesis listing :
  outcome (parse_champion_entrys (listing_page run) (LOL_WIKI_BASE_URL env)) = inr entries.

Local Abbreviation sliced := (slice_to entries (MAX_NUM_CHAMPIONS env)).

Lemma detail_tasks_lookup (i : nat) :
  detail_tasks env run entries !! i =
  (fun r => outcome (parse_champion_stats r (stats_pages run i))) <$> sliced !! i.
Proof. unfold detail_tasks. apply list_lookup_imap. Qed.

Lemma sliced_lookup (i : nat) (entry : ChampionEntry) :
  sliced !! i = Some entry -> entries !! i = Some entry.
Proof.
  rewrite slice_to_take. intros Hi.
  apply lookup_take_Some in Hi as [Hi _]. exact Hi.
Qed.

Lemma main_returns (pairs : list (ChampionEntry * ChampionStats)) :
  main env run = Some (inr pairs) ->
  fst <$> pairs = sliced
  /\ forall i entry stats,
      pairs !! i = Some (entry, stats) ->
      entries !! i = Some entry
      /\ outcome (parse_champion_stats entry (stats_pages run i)) = inr stats
      /\ stats_name stats = name entry.
Proof.
  unfold main. rewrite listing.
  destruct (gather _ _) as [[e | details] |] eqn:Hgather; try discriminate.
  intros [= <-]. apply gather_returns in Hgather.
  assert (Hlen : length details = length sliced).
  { apply (f_equal length) in Hgather.
    rewrite length_map in Hgather. unfold detail_tasks in Hgather.
    rewrite length_imap in Hgather. symmetry. exact Hgather. }
  split.
  - rewrite <- zip_with_take_l.
    rewrite fst_zip by (rewrite length_take; lia).
    rewrite slice_to_take. f_equal. exact Hlen.
  - intros i entry stats Hi.
    apply lookup_zip_with_Some in Hi as (entry' & stats' & [= <- <-] & Hentry & Hstats).
    assert (Hsl : sliced !! i = Some entry).
    { rewrite slice_to_take, <- Hlen.
      apply lookup_take_Some. split; [exact Hentry |]. eapply lookup_lt_Some, Hstats. }
    assert (Htask : detail_tasks env run entries !! i = Some (inr stats)).
    { rewrite Hgather. change (map inr details) with (@inr Error _ <$> details).
      rewrite list_lookup_fmap, Hstats. reflexivity. }
    rewrite detail_tasks_lookup, Hsl in Htask. injection Htask as Htask.
    repeat split; [exact Hentry | exact Htask |].
    eapply parse_champion_stats_name, Htask.
Qed.

Lemma main_total :
  (forall i entry,
      sliced !! i = Some entry ->
      In i (completion run)
      /\ exists stats, outcome (parse_champion_stats entry (stats_pages run i)) = inr stats) ->
  exists pairs, main env run = Some (inr pairs).
Proof.
  intros Hall. unfold main. rewrite listing.
  destruct (all_returned (detail_tasks env run entries)) as [l Hl].
  { intros i t. rewrite detail_tasks_lookup.
    destruct (sliced !! i) as [entry |] eqn:Hi; [| discriminate].
    intros [= <-]. apply (Hall i entry Hi). }
  rewrite Hl, gather_total; [eauto |].
  intros i Hlt.
  assert (Hlen : length l = length sliced).
  { apply (f_equal length) in Hl. rewrite length_map in Hl.
    unfold detail_tasks in Hl. rewrite length_imap in Hl. symmetry. exact Hl. }
  destruct (lookup_lt_is_Some_2 sliced i) as [entry Hi]; [lia |].
  apply (Hall i entry Hi).
Qed.

End Main.

(** The roster with its second row broken raises; the whole roster is
    read in the order of its rows. *)
Lemma listing_is_all_or_nothing_witness :
  (exists e, outcome (parse_champion_entrys broken_roster_page "https://wiki") = inl e)
  /\ exists entries,
      outcome (parse_champion_entrys roster_page "https://wiki") = inr entries.
Proof.
  split.
  - apply (proj1 (listing_is_all_or_nothing broken_roster_page "https://wiki" _ eq_refl)
                 (take 3 (roster_row "B" "B the Second" "/wiki/B/LoL" " V14.2 "))).
    + right. left. reflexivity.
    + right. left. reflexivity.
  - apply (proj2 (proj2 (proj2 (proj2
             (listing_is_all_or_nothing roster_page "https://wiki" _ eq_refl))))).
    + exists 1. split; [lia | reflexivity].
    + eexists. reflexivity.
    + repeat constructor; do 3 eexists; repeat split.
Defined.

(** C6 fails as stated: the roster page loads, each of its rows has a
    first cell, a fourth cell and a link in the first cell, and yet no
    roster is returned, because the link of the third row has no
    address. *)
Lemma link_without_address_raises :
  listing_goto unlinked_roster_page 1 = None
  /\ (exists rows,
         listing_rows unlinked_roster_page = inr rows
         /\ forallb has_required_cells rows = true)
  /\ outcome (parse_champion_entrys unlinked_roster_page "https://wiki") = inl TypeError.
Proof. split; [reflexivity |]. split; [eexists; split; reflexivity | reflexivity]. Qed.

(** C1. When the listing crawl has returned its entries: the pairs of a
    run that returns are the entries in the order of the listing, cut as
    [MAX_NUM_CHAMPIONS] says, each paired with the record that the detail
    crawl of that entry returned, whose name is the name of the entry; a
    run returns when every detail crawl finishes and returns; and the
    pairs are the same whatever the order in which the crawls finish. *)
Theorem pairs_follow_the_listing (env : ENV) (run : Run) (entries : list ChampionEntry) :
  outcome (parse_champion_entrys (listing_page run) (LOL_WIKI_BASE_URL env)) = inr entries ->
  (forall pairs,
      main env run = Some (inr pairs) ->
      fst <$> pairs = slice_to entries (MAX_NUM_CHAMPIONS env)
      /\ forall i entry stats,
          pairs !! i = Some (entry, stats) ->
          entries !! i = Some entry
          /\ outcome (parse_champion_stats entry (stats_pages run i)) = inr stats
          /\ stats_name stats = name entry)
  /\ ((forall i entry,
          slice_to entries (MAX_NUM_CHAMPIONS env) !! i = Some entry ->
          In i (completion run)
          /\ exists stats,
              outcome (parse_champion_stats entry (stats_pages run i)) = inr stats) ->
      exists pairs, main env run = Some (inr pairs))
  /\ (forall completion' pairs pairs',
         main env run = Some (inr pairs) ->
         main env {| listing_page := listing_page run;
                     stats_pages := stats_pages run;
                     completion := completion' |} = Some (inr pairs') ->
         pairs' = pairs).
Proof.
  intros Hlisting. split; [| split].
  - intros pairs. apply main_returns, Hlisting.
  - apply main_total, Hlisting.
  - intros completion' pairs pairs' Hrun Hrun'.
    apply (main_returns _ _ _ Hlisting) in Hrun as [Hfst Hpairs].
    pose proof (main_returns env
                  {| listing_page := listing_page run;
                     stats_pages := stats_pages run;
                     completion := completion' |} entries Hlisting pairs' Hrun')
      as [Hfst' Hpairs'].
    simpl in Hfst', Hpairs'.
    assert (Hlen : length pairs' = length pairs).
    { rewrite <- (length_fmap fst pairs'), <- (length_fmap fst pairs). congruence. }
    apply list_eq. intros i.
    destruct (pairs' !! i) as [[entry' stats'] |] eqn:Hi';
      destruct (pairs !! i) as [[entry stats] |] eqn:Hi.
    + destruct (Hpairs _ _ _ Hi) as (He & Hs & _).
      destruct (Hpairs' _ _ _ Hi') as (He' & Hs' & _).
      assert (entry' = entry) as -> by congruence. congruence.
    + apply lookup_lt_Some in Hi'. apply lookup_ge_None in Hi. lia.
    + apply lookup_lt_Some in Hi. apply lookup_ge_None in Hi'. lia.
    + reflexivity.
Qed.

(** A, B and C are listed in that order and their crawls finish in the
    order C, A, B: the pairs are those of A, B and C, in that order. *)
Lemma pairs_follow_the_listing_witness :
  exists pairs,
    main roster_env roster_run = Some (inr pairs)
    /\ fst <$> pairs = roster_entries.
Proof.
  destruct (pairs_follow_the_listing roster_env roster_run roster_entries eq_refl)
    as (Hreturns & Htotal & _).
  destruct Htotal as [pairs Hpairs].
  - intros [| [| [| i]]] entry [= <-]; (split; [simpl; auto |]); eexists;
      rewrite parse_champion_stats_outcome; reflexivity.
  - exists pairs. split; [exact Hpairs |]. apply (Hreturns pairs Hpairs).
Defined.

(** ** The semaphore *)

Section GateInvariant.
Import Gate.

Lemma count_insert (ps : list Phase) (i : nat) (p q : Phase) :
  ps !! i = Some p ->
  length (List.filter is_in_flight (<[i := q]> ps)) + weight p
  = length (List.filter is_in_flight ps) + weight q.
Proof.
  revert i. induction ps as [| p0 ps IH]; intros [| i] Hi; try discriminate; simpl in *.
  - injection Hi as ->. unfold weight.
    destruct (is_in_flight p), (is_in_flight q); simpl; lia.
  - specialize (IH i Hi). destruct (is_in_flight p0); simpl; lia.
Qed.

Lemma count_replicate_Waiting (crawls : nat) :
  length (List.filter is_in_flight (replicate crawls Waiting)) = 0.
Proof. induction crawls; simpl; auto. Qed.

(** A step keeps the sum of the crawls in the block and the free
    permits. *)
Lemma step_balance (st st' : State) (ev : Event) :
  step st ev = Some st' -> in_flight st' + value st' = in_flight st + value st.
Proof.
  unfold step, in_flight. destruct ev as [i | i | i raised].
  - destruct (phases st !! i) as [[| |] |] eqn:Hi; try discriminate.
    destruct (value st) as [| v]; [discriminate |]. intros [= <-]. simpl.
    pose proof (count_insert _ _ _ InFlight Hi) as Hc. unfold weight in Hc. simpl in Hc. lia.
  - destruct (phases st !! i) as [[| |] |]; try discriminate. intros [= <-]. reflexivity.
  - destruct (phases st !! i) as [[| |] |] eqn:Hi; try discriminate. intros [= <-]. simpl.
    pose proof (count_insert _ _ _ (Left raised) Hi) as Hc. unfold weight in Hc. simpl in Hc. lia.
Qed.

Lemma steps_balance (evs : list Event) (st st' : State) :
  steps st evs = Some st' -> in_flight st' + value st' = in_flight st + value st.
Proof.
  revert st. induction evs as [| ev evs IH]; intros st; simpl.
  - intros [= <-]. reflexivity.
  - destruct (step st ev) as [st1 |] eqn:Hstep; [| discriminate].
    intros Hrest. rewrite (IH _ Hrest). apply step_balance with ev, Hstep.
Qed.

Lemma steps_app (before after : list Event) (st : State) :
  steps st (before ++ after) =
  match steps st before with
  | Some st' => steps st' after
  | None => None
  end.
Proof.
  revert st. induction before as [| ev before IH]; intros st; simpl; [reflexivity |].
  destruct (step st ev); [apply IH | reflexivity].
Qed.

(** A crawl is in the block only after it has taken a permit. *)
Lemma steps_acquired (evs : list Event) (st st' : State) (i : nat) :
  steps st evs = Some st' -> phases st' !! i = Some InFlight ->
  phases st !! i = Some InFlight \/ In (Acquire i) evs.
Proof.
  revert st. induction evs as [| ev evs IH]; intros st; simpl.
  - intros [= <-]. auto.
  - destruct (step st ev) as [st1 |] eqn:Hstep; [| discriminate].
    intros Hrest Hi. destruct (IH _ Hrest Hi) as [H1 | Hin]; [| auto].
    unfold step in Hstep. destruct ev as [j | j | j raised].
    + destruct (phases st !! j) as [[| |] |] eqn:Hj; try discriminate.
      destruct (value st); [discriminate |]. injection Hstep as <-. simpl in H1.
      destruct (decide (i = j)) as [-> | Hne]; [auto |].
      rewrite list_lookup_insert_ne in H1 by congruence. auto.
    + destruct (phases st !! j) as [[| |] |]; try discriminate.
      injection Hstep as <-. auto.
    + destruct (phases st !! j) as [[| |] |] eqn:Hj; try discriminate.
      injection Hstep as <-. simpl in H1.
      destruct (decide (i = j)) as [-> | Hne].
      * apply lookup_lt_Some in Hj.
        rewrite list_lookup_insert_eq in H1 by exact Hj. discriminate.
      * rewrite list_lookup_insert_ne in H1 by congruence. auto.
Qed.

End GateInvariant.

(** C9. In every run of the crawls under a semaphore of [n] permits, and
    at every point of it, the crawls inside the block and the free
    permits add up to [n], so at most [n] crawls are inside; a crawl
    calls the browser only inside the block, after it has taken a permit;
    and it gives the permit back when it leaves the block, with or
    without an exception. *)
Theorem at_most_n_crawls_in_flight (n crawls : nat) (evs : list Gate.Event) (st : Gate.State) :
  Gate.steps (Gate.init n crawls) evs = Some st ->
  (forall before after,
      evs = before ++ after ->
      exists st',
        Gate.steps (Gate.init n crawls) before = Some st'
        /\ Gate.in_flight st' + Gate.value st' = n
        /\ Gate.in_flight st' <= n)
  /\ (forall before i after,
         evs = before ++ Gate.Network i :: after ->
         exists st',
           Gate.steps (Gate.init n crawls) before = Some st'
           /\ Gate.phases st' !! i = Some Gate.InFlight
           /\ In (Gate.Acquire i) before)
  /\ (forall before i raised after,
         evs = before ++ Gate.Release i raised :: after ->
         exists st1 st2,
           Gate.steps (Gate.init n crawls) before = Some st1
           /\ Gate.phases st1 !! i = Some Gate.InFlight
           /\ Gate.step st1 (Gate.Release i raised) = Some st2
           /\ Gate.value st2 = S (Gate.value st1)
           /\ Gate.phases st2 !! i = Some (Gate.Left raised)).
Proof.
  intros Hrun.
  assert (Hprefix : forall before after,
             evs = before ++ after ->
             exists st', Gate.steps (Gate.init n crawls) before = Some st'
                         /\ Gate.steps st' after = Some st).
  { intros before after ->. rewrite steps_app in Hrun.
    destruct (Gate.steps _ before) as [st' |]; [eauto | discriminate]. }
  repeat apply conj.
  - intros before after Heq. destruct (Hprefix _ _ Heq) as (st' & Hbefore & _).
    exists st'. split; [exact Hbefore |].
    apply steps_balance in Hbefore as Hbal.
    change (Gate.in_flight (Gate.init n crawls))
      with (length (List.filter Gate.is_in_flight (replicate crawls Gate.Waiting))) in Hbal.
    rewrite count_replicate_Waiting in Hbal. simpl in Hbal. lia.
  - intros before i after Heq. destruct (Hprefix _ _ Heq) as (st' & Hbefore & Hafter).
    exists st'. split; [exact Hbefore |]. simpl in Hafter.
    destruct (Gate.phases st' !! i) as [[| |] |] eqn:Hi; try discriminate.
    split; [reflexivity |].
    destruct (steps_acquired _ _ _ _ Hbefore Hi) as [Hinit | Hin]; [| exact Hin].
    simpl in Hinit. apply lookup_replicate in Hinit as [[=] _].
  - intros before i raised after Heq.
    destruct (Hprefix _ _ Heq) as (st1 & Hbefore & Hafter).
    simpl in Hafter. destruct (Gate.phases st1 !! i) as [[| |] |] eqn:Hi; try discriminate.
    eexists st1, _.
    repeat split; [exact Hbefore | exact Hi | simpl; rewrite Hi; reflexivity | reflexivity |].
    simpl. apply list_lookup_insert_eq. eapply lookup_lt_Some, Hi.
Qed.

(** Three crawls under two permits: the third one cannot enter before
    one of the first two has left, here with an exception. *)
Lemma at_most_n_crawls_in_flight_witness :
  exists st',
    Gate.steps (Gate.init 2 3)
               [Gate.Acquire 0; Gate.Network 0; Gate.Acquire 1; Gate.Network 1;
                Gate.Release 0 (Some (TimeoutError "third")); Gate.Acquire 2] = Some st'
    /\ Gate.in_flight st' + Gate.value st' = 2
    /\ Gate.in_flight st' <= 2.
Proof.
  apply (proj1 (at_most_n_crawls_in_flight 2 3
                  ([Gate.Acquire 0; Gate.Network 0; Gate.Acquire 1; Gate.Network 1;
                    Gate.Release 0 (Some (TimeoutError "third")); Gate.Acquire 2]
                     ++ [Gate.Network 2; Gate.Release 2 None; Gate.Release 1 None])
                  _ eq_refl) _ _ eq_refl).
Defined.

(** * Further properties *)

(** ** The detail crawl *)

Lemma AsyncRetrying_3_returns (context : string) (attempt : nat -> option Error) :
  outcome (AsyncRetrying 3 context attempt) = inr tt ->
  exists k, 1 <= k <= 3 /\ attempt k = None.
Proof.
  rewrite AsyncRetrying_3.
  destruct (attempt 1) eqn:H1; [| exists 1; split; [lia | exact H1]].
  destruct (attempt 2) eqn:H2; [| exists 2; split; [lia | exact H2]].
  destruct (attempt 3) eqn:H3; [discriminate | exists 3; split; [lia | exact H3]].
Qed.

Lemma stats_attempt_None (page : StatsPage) (k : nat) :
  stats_attempt page k = None <->
  stats_goto page k = None /\ stats_select_option page k = None.
Proof.
  unfold stats_attempt. destruct (stats_goto page k); split; intros H;
    try discriminate; try (destruct H; discriminate); tauto.
Qed.

(** X1. A detail crawl returns a record exactly when one of the first
    three attempts both loads the page and selects the level, and the
    panel can then be read; the record is the one extracted from the
    panel.  An exception while the panel is read, after such an attempt,
    is raised as it is: reading the panel is outside the retry loop. *)
Theorem detail_crawl_returns_iff (entry : ChampionEntry) (page : StatsPage) :
  (forall stats,
      outcome (parse_champion_stats entry page) = inr stats <->
      (exists k, 1 <= k <= 3
                 /\ stats_goto page k = None /\ stats_select_option page k = None)
      /\ exists details,
          stats_details page = inr details
          /\ outcome (extract (name entry) details) = inr stats)
  /\ (forall e,
         (exists k, 1 <= k <= 3
                    /\ stats_goto page k = None /\ stats_select_option page k = None) ->
         stats_details page = inl e ->
         outcome (parse_champion_stats entry page) = inl e).
Proof.
  split.
  - intros stats. rewrite parse_champion_stats_outcome. split.
    + destruct (outcome (AsyncRetrying _ _ _)) as [e | []] eqn:Hnav; [discriminate |].
      apply AsyncRetrying_3_returns in Hnav as (k & Hk & Hnone).
      apply stats_attempt_None in Hnone.
      destruct (stats_details page) as [e | details]; [discriminate |].
      intros [= <-]. split; [exists k; tauto |].
      exists details. split; [reflexivity | apply extract_outcome].
    + intros [(k & Hk & Hgoto & Hsel) (details & -> & Hextract)].
      rewrite AsyncRetrying_3_succeeds
        by (exists k; split; [exact Hk | apply stats_attempt_None; tauto]).
      rewrite extract_outcome in Hextract. exact Hextract.
  - intros e (k & Hk & Hgoto & Hsel) Hdetails.
    rewrite parse_champion_stats_outcome, Hdetails.
    rewrite AsyncRetrying_3_succeeds
      by (exists k; split; [exact Hk | apply stats_attempt_None; tauto]).
    reflexivity.
Qed.

(** The page of A loads at the second attempt. *)
Lemma detail_crawl_returns_iff_witness :
  exists stats,
    outcome (parse_champion_stats
               {| name := Some "A"; last_changed_patch := "V14.1";
                  stats_url := "https://wiki/wiki/A/LoL" |}
               (roster_stats_page 0)) = inr stats.
Proof.
  eexists.
  apply (proj2 (proj1 (detail_crawl_returns_iff _ (roster_stats_page 0)) _)).
  split.
  - exists 2. repeat split; lia.
  - eexists. split; [reflexivity | apply extract_outcome].
Defined.

(** ** Failure of a detail crawl *)

Lemma gather_run_first_failure {A} (tasks : list (Error + A)) (before after : list nat)
      (i : nat) (e : Error) (results : list (option A)) :
  (forall j, In j before -> forall e', tasks !! j <> Some (inl e')) ->
  tasks !! i = Some (inl e) ->
  gather_run tasks (before ++ i :: after) results = inl e.
Proof.
  revert results. induction before as [| j before IH]; intros results Hbefore Hi; simpl.
  - rewrite Hi. reflexivity.
  - destruct (tasks !! j) as [[e' | a] |] eqn:Hj.
    + exfalso. apply (Hbefore j (or_introl eq_refl) e'). exact Hj.
    + apply IH; [| exact Hi]. intros j' Hin. apply Hbefore. right. exact Hin.
    + apply IH; [| exact Hi]. intros j' Hin. apply Hbefore. right. exact Hin.
Qed.

(** X2. When the listing has returned: a detail crawl that raises means
    that the run returns no pairs, in whatever order the crawls finish;
    and the run raises the exception of the crawl that is the first to
    finish by raising. *)
Theorem failed_crawl_fails_the_run (env : ENV) (run : Run) (entries : list ChampionEntry) :
  outcome (parse_champion_entrys (listing_page run) (LOL_WIKI_BASE_URL env)) = inr entries ->
  (forall i entry e,
      slice_to entries (MAX_NUM_CHAMPIONS env) !! i = Some entry ->
      outcome (parse_champion_stats entry (stats_pages run i)) = inl e ->
      forall pairs, main env run <> Some (inr pairs))
  /\ (forall before i after entry e,
         completion run = before ++ i :: after ->
         slice_to entries (MAX_NUM_CHAMPIONS env) !! i = Some entry ->
         outcome (parse_champion_stats entry (stats_pages run i)) = inl e ->
         (forall j entry', In j before ->
                           slice_to entries (MAX_NUM_CHAMPIONS env) !! j = Some entry' ->
                           exists stats,
                             outcome (parse_champion_stats entry' (stats_pages run j))
                             = inr stats) ->
         main env run = Some (inl e)).
Proof.
  intros Hlisting. split.
  - intros i entry e Hi Hfail pairs Hrun. unfold main in Hrun. rewrite Hlisting in Hrun.
    destruct (gather _ _) as [[e' | details] |] eqn:Hgather; try discriminate.
    apply gather_returns in Hgather.
    assert (Htask : detail_tasks env run entries !! i = Some (inl e))
      by (rewrite (detail_tasks_lookup env run entries), Hi; simpl; congruence).
    rewrite Hgather in Htask. change (map inr details) with (@inr Error _ <$> details) in Htask.
    rewrite list_lookup_fmap in Htask. destruct (details !! i); discriminate.
  - intros before i after entry e Hcompletion Hi Hfail Hbefore.
    unfold main, gather. rewrite Hlisting, Hcompletion.
    rewrite (gather_run_first_failure _ _ _ _ e); [reflexivity | |].
    + intros j Hin e'. rewrite (detail_tasks_lookup env run entries).
      destruct (slice_to entries (MAX_NUM_CHAMPIONS env) !! j) as [entry' |] eqn:Hj;
        [| discriminate].
      destruct (Hbefore j entry' Hin Hj) as [stats Hstats]. simpl. congruence.
    + rewrite (detail_tasks_lookup env run entries), Hi. simpl. congruence.
Qed.

(** ** The number of pairs *)

(** X3. A run that returns has as many pairs as [MAX_NUM_CHAMPIONS]
    leaves of the listing: all entries when it is unset, at most that
    many when it is zero or more (none when it is zero), and all but the
    last [-n] when it is a negative [n]. *)
Theorem number_of_pairs (env : ENV) (run : Run) (pairs : list (ChampionEntry * ChampionStats)) :
  main env run = Some (inr pairs) ->
  exists entries,
    outcome (parse_champion_entrys (listing_page run) (LOL_WIKI_BASE_URL env)) = inr entries
    /\ length pairs =
       match MAX_NUM_CHAMPIONS env with
       | None => length entries
       | Some n =>
           if (0 <=? n)%Z then Nat.min (Z.to_nat n) (length entries)
           else length entries - Z.to_nat (- n)
       end.
Proof.
  intros Hrun.
  destruct (outcome (parse_champion_entrys (listing_page run) (LOL_WIKI_BASE_URL env)))
    as [e | entries] eqn:Hlisting.
  - unfold main in Hrun. rewrite Hlisting in Hrun. discriminate.
  - exists entries. split; [reflexivity |].
    destruct (main_returns env run entries Hlisting pairs Hrun) as [Hfst _].
    rewrite <- (length_fmap fst pairs), Hfst. unfold slice_to.
    destruct (MAX_NUM_CHAMPIONS env) as [n |]; [| reflexivity].
    destruct (0 <=? n)%Z; rewrite length_take; lia.
Qed.

(** With the cap at [-1], the run of the roster returns A and B. *)
Lemma number_of_pairs_witness :
  exists pairs,
    main {| LOL_WIKI_BASE_URL := "https://wiki";
            CHAMPION_DETAILS_MAX_NUM_CONCURRENT_PARSERS := 3;
            MAX_NUM_CHAMPIONS := Some (-1)%Z |} roster_run = Some (inr pairs)
    /\ length pairs = 2.
Proof.
  eexists. split; [vm_compute; reflexivity |].
  destruct (number_of_pairs
              {| LOL_WIKI_BASE_URL := "https://wiki";
                 CHAMPION_DETAILS_MAX_NUM_CONCURRENT_PARSERS := 3;
                 MAX_NUM_CHAMPIONS := Some (-1)%Z |} roster_run _ eq_refl)
    as (entries & Hentries & Hlen).
  injection Hentries as <-. exact Hlen.
Defined.

(** The roster when the page of B never loads: no pairs, and the timeout
    of B ends the run. *)
Lemma failed_crawl_fails_the_run_witness :
  main roster_env failing_run = Some (inl (TimeoutError "B is down")).
Proof.
  apply (proj2 (failed_crawl_fails_the_run roster_env failing_run roster_entries eq_refl)
               [2] 1 [0]
               {| name := Some "B"; last_changed_patch := "V14.2";
                  stats_url := "https://wiki/wiki/B/LoL" |});
    try reflexivity.
  intros j entry' [<- | []] [= <-]. eexists.
  rewrite parse_champion_stats_outcome. reflexivity.
Defined.

(** ** What the extraction loop keeps *)

Lemma visited_form (el : Element) :
  (forall cs, visited cs el = cs)
  \/ exists f m,
      qualifies f el m /\ forall cs, visited cs el = assign f m cs.
Proof.
  unfold visited, observed, qualifies.
  destruct (String.eqb_spec (flattened_text el) EmptyString) as [Hempty | Hne]; [auto |].
  destruct (select_arm (data_source el)) as [f | |]; auto.
  destruct (Re.rmatch (regex_of f) (flattened_text el)) as [m |] eqn:Hm; auto.
  destruct (skips f m) eqn:Hs.
  - left. intros cs. apply assign_skipped, Hs.
  - right. exists f, m. auto.
Qed.

(** The value an arm leaves in an attribute depends on the record only
    through that attribute. *)
Lemma assign_attr_ext (f : Field) (m : Re.captures) (cs1 cs2 : ChampionStats) (s : Slot) :
  attr cs1 s = attr cs2 s -> attr (assign f m cs1) s = attr (assign f m cs2) s.
Proof.
  intros Heq. destruct (skips f m) eqn:Hs.
  - rewrite !assign_skipped by exact Hs. exact Heq.
  - destruct (in_dec Slot_eq_dec s (slots_of f)) as [Hin | Hout].
    + rewrite !assign_writes by assumption. reflexivity.
    + rewrite !assign_other by assumption. exact Heq.
Qed.

Lemma visited_attr_ext (el : Element) (cs1 cs2 : ChampionStats) (s : Slot) :
  attr cs1 s = attr cs2 s -> attr (visited cs1 el) s = attr (visited cs2 el) s.
Proof.
  intros Heq. destruct (visited_form el) as [Hid | (f & m & _ & Hassign)].
  - rewrite !Hid. exact Heq.
  - rewrite !Hassign. apply assign_attr_ext, Heq.
Qed.

Lemma fold_visited_attr_ext (details : list Element) (cs1 cs2 : ChampionStats) (s : Slot) :
  attr cs1 s = attr cs2 s ->
  attr (fold_left visited details cs1) s = attr (fold_left visited details cs2) s.
Proof.
  revert cs1 cs2. induction details as [| el details IH]; intros cs1 cs2 Heq; simpl;
    [exact Heq |].
  apply IH, visited_attr_ext, Heq.
Qed.

(** Two elements that select different arms can be visited in either
    order. *)
Lemma visited_swap (a b : Element) (cs : ChampionStats) (s : Slot) :
  (forall f, select_arm (data_source a) = Rule f -> select_arm (data_source b) <> Rule f) ->
  attr (visited (visited cs a) b) s = attr (visited (visited cs b) a) s.
Proof.
  intros Hdiff.
  destruct (visited_form a) as [Ha | (fa & ma & (_ & Harm_a & _ & Hsa) & Ha)];
    destruct (visited_form b) as [Hb | (fb & mb & (_ & Harm_b & _ & Hsb) & Hb)];
    rewrite ?Ha, ?Hb; try reflexivity.
  assert (Hne : fa <> fb) by (intros ->; apply (Hdiff fb Harm_a Harm_b)).
  destruct (in_dec Slot_eq_dec s (slots_of fa)) as [Hina | Houta];
    destruct (in_dec Slot_eq_dec s (slots_of fb)) as [Hinb | Houtb].
  - exfalso. apply Hne. eapply slots_of_disjoint; eassumption.
  - rewrite (assign_other fb) by assumption. rewrite !(assign_writes fa) by assumption.
    reflexivity.
  - rewrite (assign_other fa) by assumption. rewrite !(assign_writes fb) by assumption.
    reflexivity.
  - rewrite !assign_other by assumption. reflexivity.
Qed.

(** X4. The extraction of a panel always returns, and the record it
    returns never holds the placeholders: [resource_name] is not
    [Resource] and [resource_regen_base] is not [N/A]. *)
Theorem placeholders_are_never_stored (n : option string) (details : list Element) :
  exists cs,
    outcome (extract n details) = inr cs
    /\ attr cs resource_name <> Some "Resource"
    /\ attr cs resource_regen_base <> Some "N/A".
Proof.
  eexists. split; [apply extract_outcome |].
  assert (Hinv : forall cs,
             attr cs resource_name <> Some "Resource"
             /\ attr cs resource_regen_base <> Some "N/A" ->
             attr (fold_left visited details cs) resource_name <> Some "Resource"
             /\ attr (fold_left visited details cs) resource_regen_base <> Some "N/A").
  { induction details as [| el details IH]; intros cs Hcs; simpl; [exact Hcs |].
    apply IH. destruct (visited_form el) as [-> | (f & m & (_ & _ & _ & Hs) & ->)];
      [exact Hcs |].
    destruct Hcs as [Hname Hbase].
    destruct f; simpl in Hs;
      try (apply bool_decide_eq_false in Hs);
      (split;
       [ first [ rewrite assign_other by (simpl; intuition discriminate); exact Hname
               | rewrite assign_writes by (simpl; auto using bool_decide_eq_false_2);
                 exact Hs ]
       | first [ rewrite assign_other by (simpl; intuition discriminate); exact Hbase
               | rewrite assign_writes by (simpl; auto using bool_decide_eq_false_2);
                 exact Hs ] ]). }
  apply Hinv. split; discriminate.
Qed.

(** X5. Two neighbouring elements of a panel whose labels select
    different arms can change places: the extracted records have the
    same name and the same attributes. *)
Theorem different_fields_commute (n : option string) (before after : list Element)
        (a b : Element) :
  (forall f, select_arm (data_source a) = Rule f -> select_arm (data_source b) <> Rule f) ->
  exists cs1 cs2,
    outcome (extract n (before ++ a :: b :: after)) = inr cs1
    /\ outcome (extract n (before ++ b :: a :: after)) = inr cs2
    /\ stats_name cs1 = stats_name cs2
    /\ forall s, attr cs1 s = attr cs2 s.
Proof.
  intros Hdiff. do 2 eexists. do 2 (split; [apply extract_outcome |]). split.
  - rewrite !fold_visited_stats_name. reflexivity.
  - intros s. rewrite !fold_left_app. simpl.
    apply fold_visited_attr_ext, visited_swap, Hdiff.
Qed.

(** The health and the armor of a panel, in either order. *)
Lemma different_fields_commute_witness :
  exists cs1 cs2,
    outcome (extract None ([] ++ observation "health" "Health 600 (+ 90)"
                               :: observation "armor" "Armor 30 (+ 4)" :: [])) = inr cs1
    /\ outcome (extract None ([] ++ observation "armor" "Armor 30 (+ 4)"
                                  :: observation "health" "Health 600 (+ 90)" :: [])) = inr cs2
    /\ stats_name cs1 = stats_name cs2
    /\ forall s, attr cs1 s = attr cs2 s.
Proof.
  apply (different_fields_commute None [] []).
  intros f [= <-]. discriminate.
Defined.

(** ** Elements without text *)

Lemma lstrip_empty (s : string) :
  Str.lstrip s = EmptyString <-> all_chars Str.is_space s = true.
Proof.
  induction s as [| c s IH]; simpl; [tauto |].
  destruct (Str.is_space c); simpl; [exact IH |]. split; discriminate.
Qed.

Lemma lstrip_all_space (s : string) :
  all_chars Str.is_space (Str.lstrip s) = true -> Str.lstrip s = EmptyString.
Proof.
  induction s as [| c s IH]; simpl; [reflexivity |].
  destruct (Str.is_space c) eqn:Hc; [exact IH |]. simpl. rewrite Hc. discriminate.
Qed.

Lemma all_chars_lstrip (s : string) :
  all_chars Str.is_space s = true -> all_chars Str.is_space (Str.lstrip s) = true.
Proof. intros H. apply lstrip_empty in H as ->. reflexivity. Qed.

Lemma all_chars_rev_onto (p : ascii -> bool) (s acc : string) :
  all_chars p (Str.rev_onto s acc) = all_chars p s && all_chars p acc.
Proof.
  revert acc. induction s as [| c s IH]; intros acc; simpl; [reflexivity |].
  rewrite IH. simpl. destruct (p c), (all_chars p s); reflexivity.
Qed.

Lemma rev_onto_empty (s acc : string) :
  Str.rev_onto s acc = EmptyString -> s = EmptyString /\ acc = EmptyString.
Proof.
  revert acc. induction s as [| c s IH]; intros acc; simpl; [auto |].
  intros H. apply IH in H as [_ [=]].
Qed.

(** [s.strip()] is empty exactly when [s] is white space only. *)
Lemma strip_empty (s : string) :
  Str.strip s = EmptyString <-> all_chars Str.is_space s = true.
Proof.
  unfold Str.strip, Str.rstrip, Str.rev. split.
  - intros H. apply rev_onto_empty in H as [H _].
    apply lstrip_empty in H. rewrite all_chars_rev_onto, andb_true_r in H.
    apply lstrip_all_space in H. apply lstrip_empty, H.
  - intros H. apply lstrip_empty in H. rewrite H. reflexivity.
Qed.

Lemma join_empty (sep : string) (parts : list string) :
  Forall (fun p => p <> EmptyString) parts ->
  Str.join sep parts = EmptyString -> parts = [].
Proof.
  intros Hall. destruct Hall as [| p parts Hp _]; [reflexivity |].
  simpl. destruct parts; [contradiction |].
  destruct p; [contradiction | discriminate].
Qed.

Lemma flattened_text_empty (el : Element) :
  flattened_text el = EmptyString <->
  forall piece, In piece (itertext el) -> all_chars Str.is_space piece = true.
Proof.
  unfold flattened_text. split.
  - intros Hjoin piece Hin. apply join_empty in Hjoin.
    + apply strip_empty.
      destruct (decide (Str.strip piece = EmptyString)) as [| Hne]; [assumption |].
      exfalso. eapply filter_nil_not_elem_of; [exact Hjoin | exact Hne |].
      apply list_elem_of_In, in_map, Hin.
    + apply Forall_forall. intros x Hx. apply list_elem_of_filter in Hx. tauto.
  - intros Hall. induction (itertext el) as [| piece pieces IH]; [reflexivity |].
    simpl. rewrite filter_cons_False.
    + apply IH. intros p Hp. apply Hall. right. exact Hp.
    + intros Hne. apply Hne, strip_empty, Hall. left. reflexivity.
Qed.

(** X8. The text of an element is empty exactly when every piece of its
    text is white space only; the loop then passes over the element,
    whatever its label: the record stays as it is and only the debug
    record is logged, with no warning. *)
Theorem blank_elements_are_skipped (el : Element) :
  (flattened_text el = EmptyString <->
   forall piece, In piece (itertext el) -> all_chars Str.is_space piece = true)
  /\ ((forall piece, In piece (itertext el) -> all_chars Str.is_space piece = true) ->
      forall cs,
        visit cs el = ([Debug_field (stats_name cs) (data_source el) EmptyString], inr cs)).
Proof.
  split; [apply flattened_text_empty |].
  intros Hblank cs. apply flattened_text_empty in Hblank.
  unfold visit, observe. rewrite Hblank. reflexivity.
Qed.

(** An element with an unknown label whose text is spaces and a line
    break. *)
Lemma blank_elements_are_skipped_witness :
  visit (new_ChampionStats (Some "A"))
        {| data_source := "lore"; itertext := ["  "; String "010"%char EmptyString] |}
  = ([Debug_field (Some "A") "lore" EmptyString], inr (new_ChampionStats (Some "A"))).
Proof.
  refine (proj2 (blank_elements_are_skipped
                   {| data_source := "lore";
                      itertext := ["  "; String "010"%char EmptyString] |})
                _ (new_ChampionStats (Some "A"))).
  intros piece [<- | [<- | []]]; reflexivity.
Defined.

(** ** The log of the extraction loop *)

Lemma logs_observe (cs : ChampionStats) (field_name text : string) :
  logs (observe cs field_name text) =
  Debug_field (stats_name cs) field_name text
  :: match select_arm field_name with
     | Unknown =>
         if String.eqb text EmptyString then []
         else [Warning_unknown_field (stats_name cs) field_name text]
     | _ => []
     end.
Proof.
  unfold observe. rewrite logs_bind. simpl.
  destruct (String.eqb text EmptyString); [destruct (select_arm field_name); reflexivity |].
  destruct (select_arm field_name) as [f | |]; try reflexivity.
  destruct (Re.rmatch (regex_of f) text); reflexivity.
Qed.

Lemma logs_foldM_visit (el : Element) (details : list Element) (cs : ChampionStats) :
  logs (foldM visit (el :: details) cs) =
  logs (visit cs el) ++ logs (foldM visit details (visited cs el)).
Proof.
  simpl foldM. rewrite logs_bind. unfold visit at 1. rewrite observe_outcome. reflexivity.
Qed.

(** X9. The extraction loop logs a warning exactly for the elements whose
    text is not empty and whose label selects no arm, neither one with a
    pattern nor the arm of the ignored prefixes; the warning carries the
    name of the champion, the label and the text. *)
Theorem warnings_are_for_unknown_labels
        (n : option string) (details : list Element)
        (n' : option string) (field_name text : string) :
  In (Warning_unknown_field n' field_name text) (logs (extract n details)) <->
  n' = n
  /\ text <> EmptyString
  /\ select_arm field_name = Unknown
  /\ exists el, In el details /\ data_source el = field_name /\ flattened_text el = text.
Proof.
  unfold extract.
  assert (Hgen : forall cs,
             In (Warning_unknown_field n' field_name text) (logs (foldM visit details cs)) <->
             n' = stats_name cs
             /\ text <> EmptyString
             /\ select_arm field_name = Unknown
             /\ exists el, In el details /\ data_source el = field_name
                           /\ flattened_text el = text).
  { induction details as [| el details IH]; intros cs.
    - simpl. split; [intros [] | intros (_ & _ & _ & el & [] & _)].
    - rewrite logs_foldM_visit, in_app_iff, IH.
      unfold visit, visited. rewrite logs_observe, observed_stats_name. split.
      + intros [Hhere | (Hn & Hne & Harm & el' & Hin & Hl & Ht)].
        * destruct Hhere as [[=] | Hhere].
          destruct (select_arm (data_source el)) eqn:Harm; try (destruct Hhere).
          destruct (String.eqb_spec (flattened_text el) EmptyString) as [| Hne];
            [destruct Hhere |].
          destruct Hhere as [[= <- <- <-] | []].
          repeat split; [exact Hne | exact Harm |]. exists el. simpl. auto.
        * repeat split; try assumption. exists el'. simpl. auto.
      + intros (Hn & Hne & Harm & el' & [<- | Hin] & Hl & Ht).
        * left. right. subst. rewrite Harm.
          destruct (String.eqb_spec (flattened_text el) EmptyString); [contradiction |].
          left. reflexivity.
        * right. repeat split; try assumption. exists el'. auto. }
  apply Hgen.
Qed.

(** A panel with a label that has no arm and a label with an ignored
    prefix: only the first one is warned about. *)
Lemma warnings_are_for_unknown_labels_witness :
  In (Warning_unknown_field (Some "A") "lore" "Born in Demacia")
     (logs (extract (Some "A") [observation "usb-health" "Health 900";
                                observation "lore" "Born in Demacia"])).
Proof.
  apply (proj2 (warnings_are_for_unknown_labels (Some "A") _ _ _ _)).
  repeat split; [discriminate |].
  exists (observation "lore" "Born in Demacia"). simpl. auto.
Defined.

(** ** More on the semaphore *)

Lemma some_in_flight (ps : list Gate.Phase) :
  0 < length (List.filter Gate.is_in_flight ps) ->
  exists j, ps !! j = Some Gate.InFlight.
Proof.
  induction ps as [| p ps IH]; simpl; [lia |].
  destruct p; simpl; intros Hpos.
  - destruct (IH Hpos) as [j Hj]. exists (S j). exact Hj.
  - exists 0. reflexivity.
  - destruct (IH Hpos) as [j Hj]. exists (S j). exact Hj.
Qed.

(** X10. With at least one permit the crawls never block each other for
    good: in every state a run can reach, as long as some crawl still
    waits for the semaphore, either a crawl can enter the block or a
    crawl inside it can leave. *)
Theorem gate_makes_progress (n crawls : nat) (evs : list Gate.Event) (st : Gate.State) (i : nat) :
  1 <= n ->
  Gate.steps (Gate.init n crawls) evs = Some st ->
  Gate.phases st !! i = Some Gate.Waiting ->
  exists j st',
    Gate.step st (Gate.Acquire j) = Some st'
    \/ Gate.step st (Gate.Release j None) = Some st'.
Proof.
  intros Hn Hrun Hi.
  apply steps_balance in Hrun as Hbal.
  change (Gate.in_flight (Gate.init n crawls))
    with (length (List.filter Gate.is_in_flight (replicate crawls Gate.Waiting))) in Hbal.
  rewrite count_replicate_Waiting in Hbal. simpl in Hbal.
  destruct (Gate.value st) as [| v] eqn:Hv.
  - destruct (some_in_flight (Gate.phases st)) as [j Hj];
      [unfold Gate.in_flight in Hbal; lia |].
    exists j. eexists. right. simpl. rewrite Hj. reflexivity.
  - exists i. eexists. left. simpl. rewrite Hi, Hv. reflexivity.
Qed.

(** Three crawls under one permit, the first one inside: the third one
    waits, and the first one can leave. *)
Lemma gate_makes_progress_witness :
  exists j st',
    Gate.step {| Gate.value := 0;
                 Gate.phases := [Gate.InFlight; Gate.Waiting; Gate.Waiting] |}
              (Gate.Acquire j) = Some st'
    \/ Gate.step {| Gate.value := 0;
                    Gate.phases := [Gate.InFlight; Gate.Waiting; Gate.Waiting] |}
                 (Gate.Release j None) = Some st'.
Proof.
  apply (gate_makes_progress 1 3 [Gate.Acquire 0; Gate.Network 0] _ 2);
    [lia | reflexivity | reflexivity].
Defined.

Lemma step_after_left (st st' : Gate.State) (ev : Gate.Event) (i : nat) (r : option Error) :
  Gate.step st ev = Some st' ->
  Gate.phases st !! i = Some (Gate.Left r) ->
  crawl_of ev <> i /\ Gate.phases st' !! i = Some (Gate.Left r).
Proof.
  intros Hstep Hi.
  assert (Hne : crawl_of ev <> i).
  { intros <-. destruct ev; simpl in *; rewrite Hi in Hstep; discriminate. }
  split; [exact Hne |].
  destruct ev as [j | j | j raised]; simpl in *;
    destruct (Gate.phases st !! j) as [[| |] |]; try discriminate.
  - destruct (Gate.value st); [discriminate |]. injection Hstep as <-. simpl.
    rewrite list_lookup_insert_ne by exact Hne. exact Hi.
  - injection Hstep as <-. exact Hi.
  - injection Hstep as <-. simpl. rewrite list_lookup_insert_ne by exact Hne. exact Hi.
Qed.

Lemma steps_after_left (evs : list Gate.Event) (st st' : Gate.State) (i : nat)
      (r : option Error) :
  Gate.steps st evs = Some st' ->
  Gate.phases st !! i = Some (Gate.Left r) ->
  forall ev, In ev evs -> crawl_of ev <> i.
Proof.
  revert st. induction evs as [| ev evs IH]; intros st; simpl; [intros _ _ ev [] |].
  destruct (Gate.step st ev) as [st1 |] eqn:Hstep; [| discriminate].
  intros Hrest Hi ev' [<- | Hin].
  - apply (step_after_left _ _ _ _ _ Hstep Hi).
  - apply (IH st1 Hrest); [| exact Hin]. apply (step_after_left _ _ _ _ _ Hstep Hi).
Qed.

Lemma step_after_acquire (st st' : Gate.State) (ev : Gate.Event) (i : nat) (p : Gate.Phase) :
  Gate.step st ev = Some st' ->
  Gate.phases st !! i = Some p -> p <> Gate.Waiting ->
  ev <> Gate.Acquire i
  /\ exists p', Gate.phases st' !! i = Some p' /\ p' <> Gate.Waiting.
Proof.
  intros Hstep Hi Hp. split.
  - intros ->. simpl in Hstep. rewrite Hi in Hstep.
    destruct p; [contradiction | |]; destruct (Gate.value st); discriminate.
  - destruct ev as [j | j | j raised]; simpl in Hstep;
      destruct (Gate.phases st !! j) as [[| |] |] eqn:Hj; try discriminate.
    + destruct (Gate.value st); [discriminate |]. injection Hstep as <-. simpl.
      destruct (decide (j = i)) as [-> | Hne]; [congruence |].
      rewrite list_lookup_insert_ne by exact Hne. eauto.
    + injection Hstep as <-. eauto.
    + injection Hstep as <-. simpl.
      destruct (decide (j = i)) as [-> | Hne].
      * rewrite list_lookup_insert_eq by (eapply lookup_lt_Some, Hj).
        eexists. split; [reflexivity | discriminate].
      * rewrite list_lookup_insert_ne by exact Hne. eauto.
Qed.

Lemma steps_after_acquire (evs : list Gate.Event) (st st' : Gate.State) (i : nat)
      (p : Gate.Phase) :
  Gate.steps st evs = Some st' ->
  Gate.phases st !! i = Some p -> p <> Gate.Waiting ->
  ~ In (Gate.Acquire i) evs.
Proof.
  revert st p. induction evs as [| ev evs IH]; intros st p; simpl; [tauto |].
  destruct (Gate.step st ev) as [st1 |] eqn:Hstep; [| discriminate].
  intros Hrest Hi Hp [Heq | Hin].
  - apply (step_after_acquire _ _ _ _ _ Hstep Hi Hp). exact Heq.
  - destruct (step_after_acquire _ _ _ _ _ Hstep Hi Hp) as (_ & p' & Hi' & Hp').
    apply (IH st1 p' Hrest Hi' Hp' Hin).
Qed.

(** X12. In every run under the semaphore a crawl takes a permit at most
    once, and once it has left the block it neither calls the browser nor
    touches the semaphore again. *)
Theorem a_crawl_passes_the_gate_once
        (n crawls : nat) (evs : list Gate.Event) (st : Gate.State) :
  Gate.steps (Gate.init n crawls) evs = Some st ->
  (forall before i after,
      evs = before ++ Gate.Acquire i :: after -> ~ In (Gate.Acquire i) after)
  /\ (forall before i raised after,
         evs = before ++ Gate.Release i raised :: after ->
         forall ev, In ev after -> crawl_of ev <> i).
Proof.
  intros Hrun. split.
  - intros before i after ->. rewrite steps_app in Hrun.
    destruct (Gate.steps _ before) as [st1 |]; [| discriminate]. simpl in Hrun.
    destruct (Gate.phases st1 !! i) as [[| |] |] eqn:Hi; try discriminate.
    destruct (Gate.value st1); [discriminate |].
    apply (steps_after_acquire after _ st i Gate.InFlight Hrun); [| discriminate].
    simpl. apply list_lookup_insert_eq. eapply lookup_lt_Some, Hi.
  - intros before i raised after ->. rewrite steps_app in Hrun.
    destruct (Gate.steps _ before) as [st1 |]; [| discriminate]. simpl in Hrun.
    destruct (Gate.phases st1 !! i) as [[| |] |] eqn:Hi; try discriminate.
    eapply steps_after_left; [exact Hrun |].
    simpl. apply list_lookup_insert_eq. eapply lookup_lt_Some, Hi.
Qed.

(** Two crawls under one permit: after the first one has left with an
    exception, the rest of the run is the second crawl alone. *)
Lemma a_crawl_passes_the_gate_once_witness :
  Forall (fun ev => crawl_of ev <> 0)
         [Gate.Acquire 1; Gate.Network 1; Gate.Release 1 None].
Proof.
  apply List.Forall_forall.
  apply (proj2 (a_crawl_passes_the_gate_once 1 2
                  ([Gate.Acquire 0; Gate.Network 0]
                     ++ Gate.Release 0 (Some (TimeoutError "slow"))
                     :: [Gate.Acquire 1; Gate.Network 1; Gate.Release 1 None])
                  _ eq_refl)
               [Gate.Acquire 0; Gate.Network 0] 0 (Some (TimeoutError "slow")) _ eq_refl).
Defined.

(** ** The search of [Re.exec] against what a pattern matches *)

Lemma append_cons (x : ascii) (a b : string) :
  String.append (String x a) b = String x (String.append a b).
Proof. reflexivity. Qed.

Lemma append_assoc (a b c : string) :
  String.append (String.append a b) c = String.append a (String.append b c).
Proof.
  induction a as [| x a IH]; [reflexivity |]. rewrite !append_cons, IH. reflexivity.
Qed.

Lemma length_append (a b : string) :
  String.length (String.append a b) = String.length a + String.length b.
Proof.
  induction a as [| x a IH]; [reflexivity |]. rewrite append_cons. simpl.
  rewrite IH. reflexivity.
Qed.

Lemma take_append (a b : string) :
  Str.take (String.length (String.append a b) - String.length b) (String.append a b) = a.
Proof.
  rewrite length_append. replace (_ + _ - _) with (String.length a) by lia.
  induction a as [| x a IH]; [destruct b; reflexivity |].
  rewrite append_cons. simpl. rewrite IH. reflexivity.
Qed.

Section ExecSound.

Variables (text : string) (groups : list (string * Re.regex)).

(** Every capture is a piece of the text that the pattern of its group
    matches. *)
Local Abbreviation good m :=
  (Forall (fun nv : string * string =>
             exists r', In (fst nv, r') groups /\ matches r' (snd nv) /\ infix (snd nv) text)
          m).

Lemma exec_sound (r : Re.regex) :
  incl (named_groups r) groups ->
  forall s m k res before,
    text = String.append before s -> good m ->
    Re.exec r s m k = Some res ->
    exists s1 s2 m',
      s = String.append s1 s2 /\ matches r s1 /\ good m' /\ k s2 m' = Some res.
Proof.
  induction r as [| p | | ranges | r1 IH1 r2 IH2 | r1 IH1 r2 IH2 | r1 IH1 | r1 IH1
                  | r1 IH1 | name r1 IH1];
    intros Hincl s m k res before Htext Hgood Hexec; simpl in Hexec.
  - exists EmptyString, s, m. repeat split; [constructor | exact Hgood | exact Hexec].
  - destruct s as [| c s]; [discriminate |].
    destruct (Re.lit_eqb p c) eqn:Hc; [| discriminate].
    exists (String c EmptyString), s, m.
    repeat split; [constructor; exact Hc | exact Hgood | exact Hexec].
  - destruct s as [| c s]; [discriminate |].
    destruct (Re.is_newline c) eqn:Hc; [discriminate |].
    exists (String c EmptyString), s, m.
    repeat split; [constructor; exact Hc | exact Hgood | exact Hexec].
  - destruct s as [| c s]; [discriminate |].
    destruct (Re.in_class ranges c) eqn:Hc; [| discriminate].
    exists (String c EmptyString), s, m.
    repeat split; [constructor; exact Hc | exact Hgood | exact Hexec].
  - simpl in Hincl. apply incl_app_inv in Hincl as [Hincl1 Hincl2].
    apply (IH1 Hincl1 _ _ _ _ before Htext Hgood) in Hexec
      as (a & s' & m1 & -> & Hm1 & Hgood1 & Hexec).
    apply (IH2 Hincl2 _ _ _ _ (String.append before a)) in Hexec
      as (b & s2 & m2 & -> & Hm2 & Hgood2 & Hk);
      [| rewrite append_assoc; exact Htext | exact Hgood1].
    exists (String.append a b), s2, m2.
    repeat split; [symmetry; apply append_assoc | constructor; assumption
                   | exact Hgood2 | exact Hk].
  - simpl in Hincl. apply incl_app_inv in Hincl as [Hincl1 Hincl2].
    destruct (Re.exec r1 s m k) as [res1 |] eqn:H1.
    + injection Hexec as <-.
      apply (IH1 Hincl1 _ _ _ _ before Htext Hgood) in H1
        as (a & s2 & m' & -> & Hm & Hgood' & Hk).
      exists a, s2, m'. repeat split; [apply matches_Alt_l, Hm | exact Hgood' | exact Hk].
    + apply (IH2 Hincl2 _ _ _ _ before Htext Hgood) in Hexec
        as (a & s2 & m' & -> & Hm & Hgood' & Hk).
      exists a, s2, m'. repeat split; [apply matches_Alt_r, Hm | exact Hgood' | exact Hk].
  - simpl in Hincl.
    remember (String.length s) as fuel eqn:Hfuel. clear Hfuel.
    revert s m before Htext Hgood Hexec.
    induction fuel as [| fuel IHfuel]; intros s m before Htext Hgood Hexec.
    + exists EmptyString, s, m. repeat split; [constructor | exact Hgood | exact Hexec].
    + match type of Hexec with
      | match ?e with _ => _ end = _ => destruct e as [res1 |] eqn:H1
      end.
      * injection Hexec as <-.
        apply (IH1 Hincl _ _ _ _ before Htext Hgood) in H1
          as (a & s' & m1 & -> & Hm1 & Hgood1 & Hloop).
        destruct (String.length s' <? String.length (String.append a s')); [| discriminate].
        apply (IHfuel _ _ (String.append before a)) in Hloop
          as (b & s2 & m2 & -> & Hm2 & Hgood2 & Hk);
          [| rewrite append_assoc; exact Htext | exact Hgood1].
        exists (String.append a b), s2, m2.
        repeat split; [symmetry; apply append_assoc | constructor; assumption
                       | exact Hgood2 | exact Hk].
      * exists EmptyString, s, m. repeat split; [constructor | exact Hgood | exact Hexec].
  - simpl in Hincl.
    destruct (Re.exec r1 s m k) as [res1 |] eqn:H1.
    + injection Hexec as <-.
      apply (IH1 Hincl _ _ _ _ before Htext Hgood) in H1
        as (a & s2 & m' & -> & Hm & Hgood' & Hk).
      exists a, s2, m'. repeat split; [apply matches_Opt_some, Hm | exact Hgood' | exact Hk].
    + exists EmptyString, s, m. repeat split; [constructor | exact Hgood | exact Hexec].
  - simpl in Hincl.
    apply (IH1 Hincl _ _ _ _ before Htext Hgood) in Hexec
      as (a & s2 & m' & -> & Hm & Hgood' & Hk).
    exists a, s2, m'. repeat split; [constructor; exact Hm | exact Hgood' | exact Hk].
  - simpl in Hincl.
    apply (IH1 (fun x Hx => Hincl x (or_intror Hx)) _ _ _ _ before Htext Hgood) in Hexec
      as (a & s2 & m' & -> & Hm & Hgood' & Hk).
    rewrite take_append in Hk.
    exists a, s2, ((name, a) :: m'). repeat split; [constructor; exact Hm | | exact Hk].
    constructor; [| exact Hgood']. exists r1. simpl.
    repeat split; [apply Hincl; left; reflexivity | exact Hm |].
    exists before, s2. exact Htext.
Qed.

End ExecSound.

(** What [pattern.match(text)] returns: the pattern matches a prefix of
    the text, and every named group that took part holds a piece of the
    text that the pattern inside the group matches. *)
Lemma rmatch_sound (r : Re.regex) (text : string) (m : Re.captures) :
  Re.rmatch r text = Some m ->
  (exists s1 s2, text = String.append s1 s2 /\ matches r s1)
  /\ forall name v,
      Re.group m name = Some v ->
      exists r', In (name, r') (named_groups r) /\ matches r' v /\ infix v text.
Proof.
  unfold Re.rmatch. intros Hexec.
  apply (exec_sound text (named_groups r) r (incl_refl _) _ _ _ _ EmptyString eq_refl
                    (List.Forall_nil _)) in Hexec
    as (s1 & s2 & m' & -> & Hm & Hgood & [= ->]).
  split; [eauto |].
  intros name v Hgroup. induction Hgood as [| [n' v'] m' Hnv _ IH]; [discriminate |].
  simpl in Hgroup. destruct (String.eqb_spec n' name) as [-> | _]; [| exact (IH Hgroup)].
  injection Hgroup as <-. exact Hnv.
Qed.

(** ** The shapes of the captured values *)

Lemma in_class_digit_or_dot (c : ascii) :
  Re.in_class [("0", "9"); (".", ".")]%char c = is_digit_or_dot c.
Proof. destruct c as [[] [] [] [] [] [] [] []]; reflexivity. Qed.

Lemma in_class_space_or_letter (c : ascii) :
  Re.in_class [(" ", " "); ("a", "z"); ("A", "Z")]%char c = is_space_or_letter c.
Proof. destruct c as [[] [] [] [] [] [] [] []]; reflexivity. Qed.

Lemma in_class_sign (c : ascii) :
  Re.in_class [("+", "+"); ("-", "-")]%char c = is_sign c.
Proof. destruct c as [[] [] [] [] [] [] [] []]; reflexivity. Qed.

Lemma all_chars_ext (p q : ascii -> bool) (v : string) :
  (forall c, p c = q c) -> all_chars p v = all_chars q v.
Proof.
  intros Hpq. induction v as [| c v IH]; simpl; [reflexivity |]. rewrite Hpq, IH. reflexivity.
Qed.

Lemma matches_Class_inv (ranges : list (ascii * ascii)) (v : string) :
  matches (Re.Class ranges) v ->
  exists c, v = String c EmptyString /\ Re.in_class ranges c = true.
Proof. inversion 1; subst. eauto. Qed.

Lemma matches_Lit_inv (p : ascii) (v : string) :
  matches (Re.Lit p) v ->
  exists c, v = String c EmptyString /\ Str.lower c = Str.lower p.
Proof.
  inversion 1 as [| p' c Hc | | | | | | | | | | |]; subst. exists c. split; [reflexivity |].
  symmetry. apply Ascii.eqb_eq. exact Hc.
Qed.

Lemma matches_Seq_inv (r1 r2 : Re.regex) (v : string) :
  matches (Re.Seq r1 r2) v ->
  exists s1 s2, v = String.append s1 s2 /\ matches r1 s1 /\ matches r2 s2.
Proof. inversion 1; subst. eauto. Qed.

Lemma matches_Star_Class (ranges : list (ascii * ascii)) (v : string) :
  matches (Re.Star (Re.Class ranges)) v -> all_chars (Re.in_class ranges) v = true.
Proof.
  intros Hm. remember (Re.Star (Re.Class ranges)) as r eqn:Hr.
  induction Hm as [| | | | | | | | r1 s1 s2 H1 _ _ IH2 | | | |]; try discriminate;
    [reflexivity |].
  injection Hr as ->. apply matches_Class_inv in H1 as (c & -> & Hc).
  rewrite append_cons. simpl. rewrite Hc. apply IH2. reflexivity.
Qed.

Lemma matches_Plus_Class (ranges : list (ascii * ascii)) (v : string) :
  matches (Re.Plus (Re.Class ranges)) v ->
  nonempty v && all_chars (Re.in_class ranges) v = true.
Proof.
  intros Hm. apply matches_Seq_inv in Hm as (s1 & s2 & -> & H1 & H2).
  apply matches_Class_inv in H1 as (c & -> & Hc). apply matches_Star_Class in H2.
  rewrite append_cons. simpl. rewrite Hc. exact H2.
Qed.

Lemma number_shape (v : string) :
  matches (Re.Plus digit_or_dot) v -> is_number v = true.
Proof.
  intros Hm. apply matches_Plus_Class in Hm. unfold is_number.
  rewrite <- (all_chars_ext _ _ v in_class_digit_or_dot). exact Hm.
Qed.

Lemma word_shape (v : string) :
  matches (Re.Plus space_or_letter) v -> is_word v = true.
Proof.
  intros Hm. apply matches_Plus_Class in Hm. unfold is_word.
  rewrite <- (all_chars_ext _ _ v in_class_space_or_letter). exact Hm.
Qed.

Lemma signed_shape (v : string) :
  matches (Re.Seq plus_or_minus (Re.Plus digit_or_dot)) v -> is_signed_number v = true.
Proof.
  intros Hm. apply matches_Seq_inv in Hm as (s1 & s2 & -> & H1 & H2).
  apply matches_Class_inv in H1 as (c & -> & Hc). apply number_shape in H2.
  rewrite append_cons. simpl. rewrite <- in_class_sign, Hc. exact H2.
Qed.

Lemma na_or_number_shape (v : string) :
  matches (Re.Alt (Re.lit "N/A") (Re.Plus digit_or_dot)) v ->
  is_na v || is_number v = true.
Proof.
  inversion 1 as [| | | | | r1 r2 s Hna | r1 r2 s Hnum | | | | | |]; subst.
  - apply matches_Seq_inv in Hna as (s1 & s' & -> & H1 & Hna).
    apply matches_Seq_inv in Hna as (s2 & s3 & -> & H2 & H3).
    apply matches_Lit_inv in H1 as (c1 & -> & Hc1).
    apply matches_Lit_inv in H2 as (c2 & -> & Hc2).
    apply matches_Lit_inv in H3 as (c3 & -> & Hc3).
    unfold is_na. rewrite !append_cons. simpl. rewrite Hc1, Hc2, Hc3. reflexivity.
  - apply number_shape in Hnum as ->. apply orb_true_r.
Qed.

(** The pattern inside the group of an attribute gives the attribute its
    shape. *)
Lemma group_shape (f : Field) (s : Slot) (r' : Re.regex) (v : string) :
  In s (slots_of f) ->
  In (slot_name s, r') (named_groups (regex_of f)) ->
  matches r' v ->
  slot_format s v = true.
Proof.
  intros Hs Hgroup Hm.
  destruct f; simpl in Hs;
    repeat (destruct Hs as [<- | Hs]); try (destruct Hs);
    vm_compute in Hgroup;
    repeat (destruct Hgroup as [Hgroup | Hgroup];
            [try discriminate Hgroup; injection Hgroup as <- |]);
    try (destruct Hgroup);
    first [ apply number_shape; exact Hm
          | apply signed_shape; exact Hm
          | apply word_shape; exact Hm
          | apply na_or_number_shape; exact Hm ].
Qed.

(** What an attribute holds after the loop was either there before or
    was captured from an element of the panel. *)
Lemma fold_visited_origin (details : list Element) (cs : ChampionStats) (s : Slot) (v : string) :
  attr (fold_left visited details cs) s = Some v ->
  attr cs s = Some v
  \/ exists el f m,
      In el details /\ qualifies f el m /\ In s (slots_of f)
      /\ Re.group m (slot_name s) = Some v.
Proof.
  revert cs. induction details as [| el details IH]; intros cs; simpl; [auto |].
  intros Hfold. destruct (IH _ Hfold) as [Hhere | (el' & f & m & Hin & Hrest)].
  - destruct (visited_form el) as [Hid | (f & m & Hq & Hassign)].
    + rewrite Hid in Hhere. auto.
    + rewrite Hassign in Hhere.
      destruct (in_dec Slot_eq_dec s (slots_of f)) as [Hs | Hs].
      * right. exists el, f, m. rewrite assign_writes in Hhere by (apply Hq || exact Hs).
        auto.
      * rewrite assign_other in Hhere by exact Hs. auto.
  - right. exists el', f, m. auto.
Qed.

(** X6. The extraction only stores what it has read: every value in the
    extracted record is a piece of the text of an element of the panel
    whose label selects the arm that assigns the attribute. *)
Theorem stored_values_come_from_the_text (n : option string) (details : list Element) :
  exists cs,
    outcome (extract n details) = inr cs
    /\ forall s v,
        attr cs s = Some v ->
        exists el f,
          In el details
          /\ select_arm (data_source el) = Rule f
          /\ In s (slots_of f)
          /\ infix v (flattened_text el).
Proof.
  eexists. split; [apply extract_outcome |].
  intros s v Hattr.
  apply fold_visited_origin in Hattr
    as [[=] | (el & f & m & Hin & (_ & Harm & Hm & _) & Hs & Hgroup)].
  exists el, f. repeat split; try assumption.
  apply rmatch_sound in Hm as [_ Hcaptures].
  destruct (Hcaptures _ _ Hgroup) as (r' & _ & _ & Hinfix). exact Hinfix.
Qed.

(** X7. The values the extraction stores have the shape their pattern
    gives them: [resource_name] is letters and spaces; [resource_base]
    and [resource_regen_base] are [N/A] in some case or digits and dots;
    the eight ARAM attributes are a sign and then digits and dots; every
    other attribute is digits and dots; and none is empty. *)
Theorem stored_values_are_well_formed (n : option string) (details : list Element) :
  exists cs,
    outcome (extract n details) = inr cs
    /\ forall s v, attr cs s = Some v -> slot_format s v = true.
Proof.
  eexists. split; [apply extract_outcome |].
  intros s v Hattr.
  apply fold_visited_origin in Hattr
    as [[=] | (el & f & m & Hin & (_ & Harm & Hm & _) & Hs & Hgroup)].
  apply rmatch_sound in Hm as [_ Hcaptures].
  destruct (Hcaptures _ _ Hgroup) as (r' & Hr' & Hmatches & _).
  apply (group_shape f s r' v Hs Hr' Hmatches).
Qed.

Lemma stored_values_come_from_the_text_witness :
  infix "600" "Health 600 (+ 90)".
Proof.
  destruct (stored_values_come_from_the_text
              None [observation "health" "Health 600 (+ 90)"])
    as (cs & Hout & Horigin).
  rewrite extract_outcome in Hout. injection Hout as <-.
  destruct (Horigin health_base "600" eq_refl) as (el & f & [<- | []] & _ & _ & Hinfix).
  exact Hinfix.
Defined.

Lemma stored_values_are_well_formed_witness :
  slot_format aram_damage_dealt_bonus_percentage "-5" = true.
Proof.
  destruct (stored_values_are_well_formed
              None [observation "aram-dmg-dealt" "Damage Dealt -5%"])
    as (cs & Hout & Hshape).
  rewrite extract_outcome in Hout. injection Hout as <-.
  apply Hshape. reflexivity.
Defined.

(** ** Elements that select no pattern *)

(** X14. The elements whose label selects no arm with a pattern, be the
    label ignored or unknown, have no part in the record: the extraction
    returns the same record when they are taken out of the panel. *)
Theorem other_labels_change_nothing (n : option string) (details : list Element) :
  outcome (extract n details) = outcome (extract n (List.filter has_rule details)).
Proof.
  rewrite !extract_outcome. f_equal. generalize (new_ChampionStats n).
  induction details as [| el details IH]; intros cs; simpl; [reflexivity |].
  unfold has_rule at 1. destruct (select_arm (data_source el)) as [f | |] eqn:Harm; simpl.
  - apply IH.
  - replace (visited cs el) with cs; [apply IH |].
    unfold visited, observed. rewrite Harm.
    destruct (String.eqb _ _); reflexivity.
  - replace (visited cs el) with cs; [apply IH |].
    unfold visited, observed. rewrite Harm.
    destruct (String.eqb _ _); reflexivity.
Qed.

(** ** Entries beyond the cap *)

(** X15. The pages of the detail crawls beyond the cap of
    [MAX_NUM_CHAMPIONS] have no part in a run: when the listing has
    returned, two runs that agree on the listing page, on the order of
    completion and on the pages of the entries that are kept end in the
    same way. *)
Theorem capped_entries_are_not_crawled (env : ENV) (run run' : Run)
        (entries : list ChampionEntry) :
  outcome (parse_champion_entrys (listing_page run) (LOL_WIKI_BASE_URL env)) = inr entries ->
  listing_page run' = listing_page run ->
  completion run' = completion run ->
  (forall i, i < length (slice_to entries (MAX_NUM_CHAMPIONS env)) ->
             stats_pages run' i = stats_pages run i) ->
  main env run' = main env run.
Proof.
  intros Hlisting Hpage Hcompletion Hpages. unfold main.
  rewrite Hpage, Hlisting, Hcompletion.
  replace (detail_tasks env run' entries) with (detail_tasks env run entries); [reflexivity |].
  unfold detail_tasks. apply imap_ext. intros i entry Hi. simpl.
  rewrite Hpages; [reflexivity |]. eapply lookup_lt_Some, Hi.
Qed.

(** The roster capped at two entries: the page of C does not matter. *)
Lemma capped_entries_are_not_crawled_witness :
  main {| LOL_WIKI_BASE_URL := "https://wiki";
          CHAMPION_DETAILS_MAX_NUM_CONCURRENT_PARSERS := 3;
          MAX_NUM_CHAMPIONS := Some 2%Z |}
       {| listing_page := roster_page;
          stats_pages := fun i => match i with
                                  | 2 => failing_stats_page 1
                                  | _ => roster_stats_page i
                                  end;
          completion := [1; 0] |}
  = main {| LOL_WIKI_BASE_URL := "https://wiki";
            CHAMPION_DETAILS_MAX_NUM_CONCURRENT_PARSERS := 3;
            MAX_NUM_CHAMPIONS := Some 2%Z |}
         {| listing_page := roster_page;
            stats_pages := roster_stats_page;
            completion := [1; 0] |}.
Proof.
  apply (capped_entries_are_not_crawled _ _ _ roster_entries); try reflexivity.
  intros [| [| i]] Hi; try reflexivity. simpl in Hi. lia.
Defined.

(** ** Groups that always take part *)

Lemma exec_mandatory (r : Re.regex) :
  forall s m k res,
    Re.exec r s m k = Some res ->
    exists s' m',
      k s' m' = Some res
      /\ (forall name, Re.group m name <> None -> Re.group m' name <> None)
      /\ forall name, In name (mandatory_groups r) -> Re.group m' name <> None.
Proof.
  induction r as [| p | | ranges | r1 IH1 r2 IH2 | r1 IH1 r2 IH2 | r1 IH1 | r1 IH1
                  | r1 IH1 | name r1 IH1];
    intros s m k res Hexec; simpl in Hexec.
  - exists s, m. simpl. tauto.
  - destruct s as [| c s]; [discriminate |]. destruct (Re.lit_eqb p c); [| discriminate].
    exists s, m. simpl. tauto.
  - destruct s as [| c s]; [discriminate |]. destruct (Re.is_newline c); [discriminate |].
    exists s, m. simpl. tauto.
  - destruct s as [| c s]; [discriminate |]. destruct (Re.in_class ranges c); [| discriminate].
    exists s, m. simpl. tauto.
  - apply IH1 in Hexec as (s1 & m1 & Hexec & Hkeep1 & Hall1).
    apply IH2 in Hexec as (s2 & m2 & Hk & Hkeep2 & Hall2).
    exists s2, m2. split; [exact Hk |]. split; [auto |].
    intros name Hin. simpl in Hin. apply in_app_or in Hin as [Hin | Hin]; auto.
  - destruct (Re.exec r1 s m k) as [res1 |] eqn:H1.
    + injection Hexec as <-. apply IH1 in H1 as (s' & m' & Hk & Hkeep & _).
      exists s', m'. simpl. tauto.
    + apply IH2 in Hexec as (s' & m' & Hk & Hkeep & _).
      exists s', m'. simpl. tauto.
  - remember (String.length s) as fuel eqn:Hfuel. clear Hfuel.
    revert s m Hexec. induction fuel as [| fuel IHfuel]; intros s m Hexec.
    + exists s, m. simpl. tauto.
    + match type of Hexec with
      | match ?e with _ => _ end = _ => destruct e as [res1 |] eqn:H1
      end.
      * injection Hexec as <-. apply IH1 in H1 as (s1 & m1 & Hloop & Hkeep1 & _).
        destruct (String.length s1 <? String.length s); [| discriminate].
        apply IHfuel in Hloop as (s2 & m2 & Hk & Hkeep2 & _).
        exists s2, m2. simpl. split; [exact Hk |]. split; [auto | tauto].
      * exists s, m. simpl. tauto.
  - destruct (Re.exec r1 s m k) as [res1 |] eqn:H1.
    + injection Hexec as <-. apply IH1 in H1 as (s' & m' & Hk & Hkeep & _).
      exists s', m'. simpl. tauto.
    + exists s, m. simpl. tauto.
  - apply IH1 in Hexec as (s' & m' & Hk & Hkeep & Hall). exists s', m'. auto.
  - apply IH1 in Hexec as (s' & m' & Hk & Hkeep & Hall).
    eexists s', _. split; [exact Hk |]. split.
    + intros n Hn. simpl. destruct (String.eqb name n); [discriminate | auto].
    + intros n [<- | Hin]; simpl.
      * rewrite String.eqb_refl. discriminate.
      * destruct (String.eqb name n); [discriminate | auto].
Qed.

(** A group outside every [?], [*] and [|] has a value after a match. *)
Lemma rmatch_mandatory (r : Re.regex) (text : string) (m : Re.captures) (name : string) :
  Re.rmatch r text = Some m -> In name (mandatory_groups r) -> Re.group m name <> None.
Proof.
  unfold Re.rmatch. intros Hexec Hin.
  apply exec_mandatory in Hexec as (s' & m' & [= ->] & _ & Hall). apply Hall, Hin.
Qed.

Lemma base_of_slots (f : Field) (s : Slot) :
  In s (slots_of f) ->
  In (base_of s) (slots_of f)
  /\ In (slot_name (base_of s)) (mandatory_groups (regex_of f)).
Proof.
  destruct f; simpl; intros Hs;
    repeat (destruct Hs as [<- | Hs]); try (destruct Hs); simpl; auto 10.
Qed.

Lemma base_of_other (f : Field) (s : Slot) :
  ~ In s (slots_of f) -> ~ In (base_of s) (slots_of f).
Proof.
  intros Hs Hbase. apply Hs. clear Hs.
  destruct f; simpl in *; repeat (destruct Hbase as [Hbase | Hbase]);
    try (exfalso; exact Hbase); destruct s; simpl in Hbase; try discriminate Hbase; auto 10.
Qed.

(** X16. In every extracted record the attributes of a field stand
    together: a growth is set only when its base is set, and the base and
    the growth of the resource only when the name of the resource is
    set. *)
Theorem growth_comes_with_base (n : option string) (details : list Element) :
  exists cs,
    outcome (extract n details) = inr cs
    /\ forall s, attr cs s <> None -> attr cs (base_of s) <> None.
Proof.
  eexists. split; [apply extract_outcome |].
  assert (Hinv : forall cs,
             (forall s, attr cs s <> None -> attr cs (base_of s) <> None) ->
             forall s, attr (fold_left visited details cs) s <> None ->
                       attr (fold_left visited details cs) (base_of s) <> None).
  { induction details as [| el details IH]; intros cs Hcs; simpl; [exact Hcs |].
    apply IH. destruct (visited_form el) as [-> | (f & m & (_ & _ & Hm & Hskip) & ->)];
      [exact Hcs |].
    intros s. destruct (in_dec Slot_eq_dec s (slots_of f)) as [Hs | Hs].
    - intros _. destruct (base_of_slots f s Hs) as [Hbase Hmandatory].
      rewrite assign_writes by assumption.
      apply (rmatch_mandatory _ _ _ _ Hm Hmandatory).
    - rewrite !assign_other by (try apply base_of_other; exact Hs). apply Hcs. }
  apply Hinv. intros s Hset. exfalso. apply Hset. reflexivity.
Qed.

Lemma growth_comes_with_base_witness :
  exists cs,
    outcome (extract None [observation "armor" "Armor 30 (+ 4)"]) = inr cs
    /\ attr cs (base_of armor_growth) <> None.
Proof.
  destruct (growth_comes_with_base None [observation "armor" "Armor 30 (+ 4)"])
    as (cs & Hout & Hbase).
  exists cs. split; [exact Hout |]. apply Hbase.
  rewrite extract_outcome in Hout. injection Hout as <-. discriminate.
Defined.

(** ** The log of the two crawls *)

Lemma Forall_logs_bind {A B} (P : LogRecord -> Prop) (c : M A) (f : A -> M B) :
  Forall P (logs c) -> (forall a, Forall P (logs (f a))) -> Forall P (logs (bind c f)).
Proof.
  intros Hc Hf. rewrite logs_bind. destruct (outcome c) as [e | a]; [exact Hc |].
  apply Forall_app. split; [exact Hc | apply Hf].
Qed.

Lemma Forall_logs_foldM {A S} (P : LogRecord -> Prop) (f : S -> A -> M S)
      (xs : list A) (acc : S) :
  (forall acc x, Forall P (logs (f acc x))) -> Forall P (logs (foldM f xs acc)).
Proof.
  intros Hf. revert acc. induction xs as [| x xs IH]; intros acc; simpl; [constructor |].
  apply Forall_logs_bind; [apply Hf | apply IH].
Qed.

Lemma Forall_logs_first {A} (P : LogRecord -> Prop) (xs : list A) : Forall P (logs (first xs)).
Proof. destruct xs; constructor. Qed.

(** The loop over the rows writes no record of an attempt. *)
Lemma parse_rows_logs (base_url : option string) (rows : list Tr) :
  Forall (fun r => is_attempt_record r = false) (logs (parse_rows base_url rows)).
Proof.
  apply Forall_logs_foldM. intros acc row.
  apply Forall_logs_bind; [| intros entry; constructor].
  unfold parse_row.
  apply Forall_logs_bind; [apply Forall_logs_first | intros td1].
  apply Forall_logs_bind; [apply Forall_logs_first | intros td4].
  apply Forall_logs_bind; [apply Forall_logs_first | intros a].
  apply Forall_logs_bind; [destruct base_url, a; constructor | intros stats_url].
  apply Forall_logs_bind; [repeat constructor | intros _; constructor].
Qed.

(** The loop over the elements writes no record of an attempt. *)
Lemma extract_logs (n : option string) (details : list Element) :
  Forall (fun r => is_attempt_record r = false) (logs (extract n details)).
Proof.
  apply Forall_logs_foldM. intros cs el. unfold visit. rewrite logs_observe.
  constructor; [reflexivity |].
  destruct (select_arm (data_source el)); try constructor.
  destruct (String.eqb _ _); repeat constructor.
Qed.

(** The log of a crawl is the log of its retry loop and then records
    that are not about attempts; when the loop raises, the crawl ends
    there with the exception of the loop. *)
Lemma crawl_after_loop {A} (loop : M unit) (rest : unit -> M A) :
  (forall u, Forall (fun r => is_attempt_record r = false) (logs (rest u))) ->
  exists records,
    logs (bind loop rest) = logs loop ++ records
    /\ Forall (fun r => is_attempt_record r = false) records
    /\ forall e, outcome loop = inl e ->
                 records = [] /\ outcome (bind loop rest) = inl e.
Proof.
  intros Hrest. rewrite logs_bind, outcome_bind.
  destruct (outcome loop) as [e | u].
  - exists []. rewrite app_nil_r. repeat split; [constructor | congruence].
  - exists (logs (rest u)). repeat split; [apply Hrest | discriminate | discriminate].
Qed.

Lemma AsyncRetrying_3_started_iff (context : string) (attempt : nat -> option Error) (k : nat) :
  In (Info_started context k) (logs (AsyncRetrying 3 context attempt)) <->
  1 <= k <= 3 /\ forall j, 1 <= j < k -> attempt j <> None.
Proof.
  split; [apply AsyncRetrying_3_started |].
  intros (Hk & Hbefore). rewrite AsyncRetrying_3.
  destruct k as [| [| [| [| k]]]]; try lia.
  - destruct (attempt 1); [destruct (attempt 2) |]; simpl; auto.
  - destruct (attempt 1) eqn:H1; [| exfalso; apply (Hbefore 1); [lia | exact H1]].
    destruct (attempt 2); simpl; auto.
  - destruct (attempt 1) eqn:H1; [| exfalso; apply (Hbefore 1); [lia | exact H1]].
    destruct (attempt 2) eqn:H2; [| exfalso; apply (Hbefore 2); [lia | exact H2]].
    simpl. auto 6.
Qed.

(** C5, as the code has it.  The retry loop runs its attempts one after
    the other and at most three of them: its log and its result are the
    ones written out below, case by case.  So the start of every attempt
    that is made is logged with its number, and no other; a failed first
    or second attempt is logged with its number and its exception before
    the next attempt starts; and when the third attempt fails too, its
    exception is raised again as it is, without a log record of that
    failure.  The log of the listing crawl and the log of a detail crawl
    are the log of this loop, over [page_goto] for the first and over
    [page_goto] with [select_option] for the second, followed by records
    that are not about attempts; and when the loop raises, the crawl
    stops there and raises the same exception. *)
Theorem navigation_is_retried_three_times :
  (forall context attempt,
      AsyncRetrying 3 context attempt =
      match attempt 1 with
      | None => ([Info_started context 1], inr tt)
      | Some e1 =>
          match attempt 2 with
          | None =>
              ([Info_started context 1; Info_failed context 1 e1;
                Info_started context 2], inr tt)
          | Some e2 =>
              ([Info_started context 1; Info_failed context 1 e1;
                Info_started context 2; Info_failed context 2 e2;
                Info_started context 3],
               match attempt 3 with
               | None => inr tt
               | Some e3 => inl e3
               end)
          end
      end)
  /\ (forall context attempt k,
         In (Info_started context k) (logs (AsyncRetrying 3 context attempt)) <->
         1 <= k <= 3 /\ forall j, 1 <= j < k -> attempt j <> None)
  /\ (forall context attempt k e,
         In (Info_failed context k e) (logs (AsyncRetrying 3 context attempt)) <->
         1 <= k < 3 /\ attempt k = Some e /\ forall j, 1 <= j < k -> attempt j <> None)
  /\ (forall page base,
         let loop := AsyncRetrying 3 (goto_context (String.append base "/wiki/List_of_champions"))
                                   (listing_goto page) in
         exists records,
           logs (parse_champion_entrys page base) = logs loop ++ records
           /\ Forall (fun r => is_attempt_record r = false) records
           /\ forall e, outcome loop = inl e ->
                        records = [] /\ outcome (parse_champion_entrys page base) = inl e)
  /\ (forall entry page,
         let loop := AsyncRetrying 3 (goto_context (stats_url entry)) (stats_attempt page) in
         exists records,
           logs (parse_champion_stats entry page) = logs loop ++ records
           /\ Forall (fun r => is_attempt_record r = false) records
           /\ forall e, outcome loop = inl e ->
                        records = [] /\ outcome (parse_champion_stats entry page) = inl e)
  /\ (forall page base e1 e2 e3,
         listing_goto page 1 = Some e1 -> listing_goto page 2 = Some e2 ->
         listing_goto page 3 = Some e3 ->
         let context := goto_context (String.append base "/wiki/List_of_champions") in
         parse_champion_entrys page base =
         ([Info_started context 1; Info_failed context 1 e1;
           Info_started context 2; Info_failed context 2 e2;
           Info_started context 3], inl e3))
  /\ (forall entry page e1 e2 e3,
         stats_attempt page 1 = Some e1 -> stats_attempt page 2 = Some e2 ->
         stats_attempt page 3 = Some e3 ->
         let context := goto_context (stats_url entry) in
         parse_champion_stats entry page =
         ([Info_started context 1; Info_failed context 1 e1;
           Info_started context 2; Info_failed context 2 e2;
           Info_started context 3], inl e3)).
Proof.
  repeat apply conj.
  - intros context attempt. apply AsyncRetrying_3.
  - intros context attempt k. apply AsyncRetrying_3_started_iff.
  - intros context attempt k e. apply AsyncRetrying_3_failed.
  - intros page base loop. apply crawl_after_loop. intros _.
    apply Forall_logs_bind; [destruct (listing_rows page); constructor |].
    intros rows. apply parse_rows_logs.
  - intros entry page loop. apply crawl_after_loop. intros _.
    apply Forall_logs_bind; [destruct (stats_details page); constructor |].
    intros details. apply extract_logs.
  - intros page base e1 e2 e3 H1 H2 H3 context.
    unfold parse_champion_entrys. fold context.
    rewrite AsyncRetrying_3, H1, H2, H3. reflexivity.
  - intros entry page e1 e2 e3 H1 H2 H3 context.
    unfold parse_champion_stats. fold context.
    rewrite AsyncRetrying_3, H1, H2, H3. reflexivity.
Qed.

(** The roster page that never loads: three starts, two logged failures
    and the third exception raised; and the page of A, which loads at
    the second attempt: the first failure and two starts are logged. *)
Lemma navigation_is_retried_three_times_witness :
  parse_champion_entrys unreachable_listing "https://wiki"
  = ([Info_started "page_goto url='https://wiki/wiki/List_of_champions'" 1;
      Info_failed "page_goto url='https://wiki/wiki/List_of_champions'" 1
                  (TimeoutError "first");
      Info_started "page_goto url='https://wiki/wiki/List_of_champions'" 2;
      Info_failed "page_goto url='https://wiki/wiki/List_of_champions'" 2
                  (PlaywrightError "second");
      Info_started "page_goto url='https://wiki/wiki/List_of_champions'" 3],
     inl (TimeoutError "third"))
  /\ In (Info_started "page_goto url='u'" 2)
        (logs (AsyncRetrying 3 "page_goto url='u'" (stats_attempt (roster_stats_page 0)))).
Proof.
  split.
  - exact (proj1 (proj2 (proj2 (proj2 (proj2 (proj2 navigation_is_retried_three_times)))))
                 unreachable_listing "https://wiki" _ _ _ eq_refl eq_refl eq_refl).
  - apply (proj2 (proj1 (proj2 navigation_is_retried_three_times)
                        "page_goto url='u'" (stats_attempt (roster_stats_page 0)) 2)).
    split; [lia |]. intros [| [| j]] Hj; try lia. discriminate.
Defined.

(** C5 fails as stated: on that page the third attempt fails with its
    own exception, which ends the crawl, and no log record carries that
    failure. *)
Lemma third_failure_is_not_logged :
  listing_goto unreachable_listing 3 = Some (TimeoutError "third")
  /\ outcome (parse_champion_entrys unreachable_listing "https://wiki")
     = inl (TimeoutError "third")
  /\ existsb (fun r => match r with
                       | Info_failed _ 3 _ => true
                       | Info_failed _ _ (TimeoutError "third") => true
                       | _ => false
                       end)
             (logs (parse_champion_entrys unreachable_listing "https://wiki"))
     = false.
Proof. repeat split. Qed.

(** ** The first row that cannot be read *)

Lemma parse_rows_first_failure (base_url : option string) (good rest : list Tr) (bad : Tr)
      (e : Error) (acc : list ChampionEntry) :
  Forall (fun row => exists entry, outcome (parse_row base_url row) = inr entry) good ->
  outcome (parse_row base_url bad) = inl e ->
  outcome (foldM (fun champion_entrys row =>
                    do entry <- parse_row base_url row;
                    ret (champion_entrys ++ [entry])) (good ++ bad :: rest) acc) = inl e.
Proof.
  intros Hgood Hbad. revert acc.
  induction Hgood as [| row good [entry Hrow] _ IH]; intros acc; simpl app;
    rewrite parse_rows_step.
  - rewrite Hbad. reflexivity.
  - rewrite Hrow. apply IH.
Qed.

(** X13. When the roster page loads within three attempts and its rows
    can be read, the first row that cannot be turned into an entry
    decides how the listing crawl ends: [IndexError] when the row has no
    first cell, no fourth cell or no link in the first cell; [TypeError]
    when it has the two cells and a link, and the first link has no
    address or the table gives back no base URL. *)
Theorem first_bad_row_decides (page : ListingPage) (base_url : string)
        (good rest : list Tr) (bad : Tr) :
  (exists k, 1 <= k <= 3 /\ listing_goto page k = None) ->
  listing_rows page = inr (good ++ bad :: rest) ->
  Forall (fun row =>
            exists td1 td4 href base,
              xpath_td row 1 = [td1] /\ xpath_td row 4 = [td4]
              /\ hd_error (anchors td1) = Some (Some href)
              /\ listing_base_url page = Some base) good ->
  (xpath_td bad 1 = [] \/ xpath_td bad 4 = []
   \/ (exists td1, xpath_td bad 1 = [td1] /\ anchors td1 = []) ->
   outcome (parse_champion_entrys page base_url) = inl IndexError)
  /\ ((exists td1 td4 a,
          xpath_td bad 1 = [td1] /\ xpath_td bad 4 = [td4]
          /\ hd_error (anchors td1) = Some a
          /\ (a = None \/ listing_base_url page = None)) ->
      outcome (parse_champion_entrys page base_url) = inl TypeError).
Proof.
  intros Hnav Hrows Hgood.
  assert (Hend : forall e, outcome (parse_row (listing_base_url page) bad) = inl e ->
                           outcome (parse_champion_entrys page base_url) = inl e).
  { intros e Hbad. rewrite parse_champion_entrys_outcome, Hrows.
    rewrite (AsyncRetrying_3_succeeds _ _ Hnav).
    apply parse_rows_first_failure; [| exact Hbad].
    eapply Forall_impl; [exact Hgood |].
    intros row (td1 & td4 & href & base & H1 & H4 & Ha & Hbase). eexists.
    apply parse_row_returns. exists td1, td4, href, base. auto. }
  split.
  - intros Hmissing. apply Hend. rewrite parse_row_outcome.
    destruct Hmissing as [H1 | [H4 | (td1 & H1 & Ha)]].
    + rewrite H1. reflexivity.
    + rewrite H4. destruct (xpath_td bad 1); reflexivity.
    + rewrite H1, Ha. destruct (xpath_td bad 4); reflexivity.
  - intros (td1 & td4 & a & H1 & H4 & Ha & Hnone). apply Hend.
    rewrite parse_row_outcome, H1, H4.
    destruct (anchors td1) as [| a' ?]; [discriminate |]. injection Ha as ->.
    destruct Hnone as [-> | ->]; [destruct (listing_base_url page) | destruct a];
      reflexivity.
Qed.

(** The roster whose third row has a link without an address, and the
    roster read from a table without a base URL, where the first row is
    already the one that cannot be turned into an entry. *)
Lemma first_bad_row_decides_witness :
  outcome (parse_champion_entrys unlinked_roster_page "https://wiki") = inl TypeError
  /\ outcome (parse_champion_entrys unbased_roster_page "") = inl TypeError.
Proof.
  split.
  - apply (proj2 (first_bad_row_decides
                    unlinked_roster_page "https://wiki"
                    [roster_row "A" "A the First" "/wiki/A/LoL" " V14.1 ";
                     roster_row "B" "B the Second" "/wiki/B/LoL" " V14.2 "] [] _
                    (ex_intro _ 1 (conj (conj (le_n 1) (le_S _ _ (le_S _ _ (le_n 1)))) eq_refl))
                    eq_refl
                    ltac:(repeat constructor; do 4 eexists; repeat split))).
    do 3 eexists. repeat split. left. reflexivity.
  - apply (proj2 (first_bad_row_decides
                    unbased_roster_page "" []
                    [roster_row "B" "B the Second" "/wiki/B/LoL" " V14.2 ";
                     roster_row "C" "C the Third" "/wiki/C/LoL" " V14.3 "]
                    (roster_row "A" "A the First" "/wiki/A/LoL" " V14.1 ")
                    (ex_intro _ 1 (conj (conj (le_n 1) (le_S _ _ (le_S _ _ (le_n 1)))) eq_refl))
                    eq_refl (List.Forall_nil _))).
    do 3 eexists. repeat split. right. reflexivity.
Defined.
